(** * DistributedExperienceReplay: a replay buffer kept in a Redis database

    Shallow embedding of
    [rl_coach/memories/non_episodic/distributed_experience_replay.py].

    The buffer holds no data of its own: every method is a short sequence
    of Redis commands sent through [self.redis_connection], a client bound
    to the database index [self.db].  The embedding therefore has three
    layers:

    - the Redis server as a state ([Redis]): its numbered databases and
      the source of randomness behind [RANDOMKEY];
    - the client commands the class uses ([get], [set], [delete],
      [randomkey], [keys], [info], [flushall]) as computations in a
      state-and-exception monad [M];
    - the methods of the class, written command by command as in the
      source, with the [while] loops as fixpoints on a fuel argument.

    The methods [get_transition], [remove_transition], [get], [remove],
    [clean] and [mean_reward] start with a debugger breakpoint
    ([pytest.set_trace()]); it has no effect on the store and is left out. *)

From Stdlib Require Import ZArith.
From Stdlib Require PrimFloat Uint63.
From stdpp Require Import base option list gmap strings.

Local Open Scope Z_scope.
Set Warnings "-clear-no-such-hyp".

(** ** Python values the class handles *)

(** [rl_coach.memories.memory.MemoryGranularity]. *)
Inductive MemoryGranularity := Transitions | Episodes.

Global Instance MemoryGranularity_eq_dec : EqDecision MemoryGranularity.
Proof. solve_decision. Defined.

(** The two messages the class raises [ValueError] with. *)
Inductive value_error :=
| OnlyTransitions
    (* "... can only be configured/set in terms of transitions" *)
| NotEnoughTransitions (have : Z).
    (* "The replay buffer cannot be sampled since there are not enough
        transitions yet. There are currently {have} transitions" *)

(** Exceptions that can leave a method. *)
Inductive exn :=
| ValueError (why : value_error)
| KeyError (dbname : nat)      (* subscripting the keyspace report by 'db<n>' *)
| TypeError                    (* pickle.loads(None) *)
| UnpicklingError.             (* pickle.loads on bytes that are no pickle *)

(** Python floats and [numpy.mean].  Rewards are floats and [numpy.mean]
    works in float64.  Neither the values nor the arithmetic are fixed
    here: [float64] is the type of the values, [np_nan] its NaN, and
    [np_mean_nonempty x xs] is what [numpy.mean] returns for the list
    [x :: xs], that is the float64 sum divided by the length, in numpy's
    order of additions and with its rounding (the result can be infinite
    or NaN, and is the arithmetic mean only up to rounding). *)
Class NumPy := {
  float64 : Type;
  np_nan : float64;
  np_mean_nonempty : float64 → list float64 → float64
}.

(** ** The Redis server *)

(** Keys and values are byte strings.  The server has numbered databases;
    a database that was never written to is empty.  [entropy] is the
    sequence of random numbers the server will use for [RANDOMKEY], and
    [draws] counts how many it has used. *)
Record Redis := {
  dbs : gmap nat (gmap string string);
  entropy : nat → nat;
  draws : nat
}.

Definition select (d : nat) (s : Redis) : gmap string string :=
  default ∅ (dbs s !! d).

Definition update_db (d : nat) (f : gmap string string → gmap string string)
    (s : Redis) : Redis :=
  {| dbs := <[d := f (select d s)]> (dbs s);
     entropy := entropy s;
     draws := draws s |}.

(** ** The monad of the methods

    A computation runs on a server state and either returns a value,
    raises a Python exception, or is cut off because the fuel of a loop
    ran out ([Spin]: the loop was still running).  Every outcome carries
    the server state reached. *)
Inductive outcome (A : Type) :=
| Return (a : A) (s : Redis)
| Raise (e : exn) (s : Redis)
| Spin (s : Redis).
Arguments Return {A} a s.
Arguments Raise {A} e s.
Arguments Spin {A} s.

Definition M (A : Type) : Type := Redis → outcome A.

Definition ret {A} (a : A) : M A := fun s => Return a s.
Definition raise {A} (e : exn) : M A := fun s => Raise e s.
Definition spin {A} : M A := fun s => Spin s.
Definition bind {A B} (m : M A) (k : A → M B) : M B :=
  fun s =>
    match m s with
    | Return a s' => k a s'
    | Raise e s' => Raise e s'
    | Spin s' => Spin s'
    end.

Notation "x <- m ;; k" := (bind m (fun x => k))
  (at level 100, m at next level, right associativity).
Notation "m ;;; k" := (bind m (fun _ => k))
  (at level 100, right associativity).

Definition final_state {A} (o : outcome A) : Redis :=
  match o with
  | Return _ s => s
  | Raise _ s => s
  | Spin s => s
  end.

Definition returned {A} (o : outcome A) : option A :=
  match o with
  | Return a _ => Some a
  | _ => None
  end.

(** [for x in xs: f(x)], collecting the results (a list comprehension). *)
Fixpoint for_each {A B} (f : A → M B) (xs : list A) : M (list B) :=
  match xs with
  | [] => ret []
  | x :: xs' => y <- f x ;; ys <- for_each f xs' ;; ret (y :: ys)
  end.

(** The keys of a database, in the order the server lists them. *)
Definition live_keys (d : nat) (s : Redis) : list string :=
  (map_to_list (select d s)).*1.

(** The server draws a random number: the state after. *)
Definition tick (s : Redis) : Redis :=
  {| dbs := dbs s; entropy := entropy s; draws := S (draws s) |}.

(** The key the next random number picks; none when the database is
    empty. *)
Definition next_key (d : nat) (s : Redis) : option string :=
  let ks := live_keys d s in
  ks !! (entropy s (draws s) mod length ks)%nat.

(** The keys the next [m] random numbers pick, if no key is written or
    deleted meanwhile. *)
Fixpoint upcoming (d : nat) (s : Redis) (m : nat) : list (option string) :=
  match m with
  | O => []
  | S m' => next_key d s :: upcoming d (tick s) m'
  end.

(** The keyspace section of [INFO], parsed: a dictionary from database
    to its number of keys.  The server prints a [db<n>:keys=...] line
    only for the databases that hold at least one key (on a server
    without keys the section is its header and nothing else), so an
    empty database has no entry in the dictionary. *)
Definition keyspace (m : gmap nat (gmap string string)) : gmap nat Z :=
  omap (fun kv : gmap string string =>
          if decide (kv = ∅) then None else Some (Z.of_nat (size kv))) m.

(** ** Client commands: [self.redis_connection]

    The commands of redis-py the class calls, for a client opened on
    database [d].  The class passes [uuid.UUID] objects and the result of
    [randomkey()] (a byte string, or [None] on an empty database) as key
    arguments.  The client the class was written for (redis-py 2) turns
    any argument that is not a byte string or a number into its [str()]
    text before sending it, so [None] travels as the four letters [None];
    a client that rejects such arguments would reject the [UUID] of
    [store] as well. *)
Definition encode (arg : option string) : string := default "None"%string arg.

Module redis_connection.

(** [SET key value] *)
Definition set (d : nat) (key value : string) : M bool :=
  fun s => Return true (update_db d (insert key value) s).

(** [GET key]: the value, or [None] when the key does not exist. *)
Definition get (d : nat) (name : option string) : M (option string) :=
  fun s => Return (select d s !! encode name) s.

(** [DEL key]: idempotent; returns the number of keys removed. *)
Definition delete (d : nat) (name : option string) : M Z :=
  fun s =>
    match select d s !! encode name with
    | Some _ => Return 1 (update_db d (base.delete (encode name)) s)
    | None => Return 0 s
    end.

(** [RANDOMKEY]: one of the keys of the database, chosen by the next
    random number; [None] when the database is empty. *)
Definition randomkey (d : nat) : M (option string) :=
  fun s => Return (next_key d s) (tick s).

(** [KEYS *] *)
Definition keys (d : nat) : M (list string) :=
  fun s => Return (live_keys d s) s.

(** [INFO keyspace] *)
Definition info_keyspace : M (gmap nat Z) :=
  fun s => Return (keyspace (dbs s)) s.

(** [FLUSHALL]: removes every key of every database. *)
Definition flushall : M bool :=
  fun s => Return true {| dbs := ∅; entropy := entropy s; draws := draws s |}.

End redis_connection.

(** ** Python dictionaries, as [sample] uses one

    [transition_idx] maps keys (as [randomkey()] returned them) to
    transitions and keeps insertion order. *)
Section PyDict.
Context {V : Type}.

Definition pydict := list (option string * V).

(** [d[k] = v] *)
Fixpoint dict_set (k : option string) (v : V) (d : pydict) : pydict :=
  match d with
  | [] => [(k, v)]
  | (k', v') :: d' =>
      if decide (k = k') then (k, v) :: d' else (k', v') :: dict_set k v d'
  end.

(** [k in d] *)
Definition dict_mem (k : option string) (d : pydict) : bool :=
  bool_decide (k ∈ d.*1).

(** [d.values()] *)
Definition dict_values (d : pydict) : list V := d.*2.
End PyDict.
Arguments pydict V : clear implicits.

(** [numpy.mean] of a list: for the empty list NaN (with a
    RuntimeWarning, no exception), otherwise numpy's float64 mean. *)
Definition np_mean {np : NumPy} (l : list float64) : float64 :=
  match l with
  | [] => np_nan
  | x :: xs => np_mean_nonempty x xs
  end.

(** ** The class *)

Record DistributedExperienceReplay := {
  max_size : MemoryGranularity * Z;
  allow_duplicates_in_batch_sampling : bool;
  db : nat
}.

(** [__init__] *)
Definition init (max_size : MemoryGranularity * Z)
    (allow_duplicates_in_batch_sampling : bool) (db : nat)
    : M DistributedExperienceReplay :=
  if decide (max_size.1 ≠ Transitions) then raise (ValueError OnlyTransitions)
  else ret {| max_size := max_size;
              allow_duplicates_in_batch_sampling :=
                allow_duplicates_in_batch_sampling;
              db := db |}.

Section Methods.
(** [rl_coach.core_types.Transition] is opaque to the buffer except for
    its [reward]; [pickle.dumps] and [pickle.loads] are the codec. *)
Context {np : NumPy} {Transition : Type}.
Variable reward : Transition → float64.
Variable dumps : Transition → string.
Variable loads : string → option Transition.

Variable self : DistributedExperienceReplay.

(** [pickle.loads(x)] where [x] is what [get] returned. *)
Definition pickle_loads (x : option string) : M Transition :=
  match x with
  | None => raise TypeError
  | Some b =>
      match loads b with
      | Some t => ret t
      | None => raise UnpicklingError
      end
  end.

(** [self.redis_connection.info(section='keyspace')]
    subscripted by ['db{}'.format(self.db)] and then by ['keys']. *)
Definition num_transitions : M Z :=
  report <- redis_connection.info_keyspace ;;
  match report !! db self with
  | Some n => ret n
  | None => raise (KeyError (db self))
  end.

Definition length : M Z := num_transitions.

(** The loop of the branch [allow_duplicates_in_batch_sampling]. *)
Fixpoint sample_with_duplicates (fuel : nat) (size : Z)
    (transition_idx : pydict Transition) : M (pydict Transition) :=
  if decide (Z.of_nat (List.length transition_idx) ≠ size) then
    match fuel with
    | O => spin
    | S fuel' =>
        key <- redis_connection.randomkey (db self) ;;
        blob <- redis_connection.get (db self) key ;;
        t <- pickle_loads blob ;;
        sample_with_duplicates fuel' size (dict_set key t transition_idx)
    end
  else ret transition_idx.

(** The loop of the other branch. *)
Fixpoint sample_without_duplicates (fuel : nat) (size : Z)
    (transition_idx : pydict Transition) : M (pydict Transition) :=
  if decide (Z.of_nat (List.length transition_idx) ≠ size) then
    match fuel with
    | O => spin
    | S fuel' =>
        key <- redis_connection.randomkey (db self) ;;
        if dict_mem key transition_idx then
          sample_without_duplicates fuel' size transition_idx
        else
          blob <- redis_connection.get (db self) key ;;
          t <- pickle_loads blob ;;
          sample_without_duplicates fuel' size (dict_set key t transition_idx)
    end
  else ret transition_idx.

Definition sample (fuel : nat) (size : Z) : M (list Transition) :=
  transition_idx <-
    (if allow_duplicates_in_batch_sampling self then
       sample_with_duplicates fuel size []
     else
       n <- num_transitions ;;
       if decide (n >= size) then sample_without_duplicates fuel size []
       else
         have <- num_transitions ;;
         raise (ValueError (NotEnoughTransitions have))) ;;
  ret (dict_values transition_idx).

(** The [while] loop of [_enforce_max_length]; [and] evaluates
    [self.num_transitions()] only when [size != 0]. *)
Fixpoint evict_loop (fuel : nat) (size : Z) : M unit :=
  if decide (size ≠ 0) then
    n <- num_transitions ;;
    if decide (n > size) then
      match fuel with
      | O => spin
      | S fuel' =>
          key <- redis_connection.randomkey (db self) ;;
          redis_connection.delete (db self) key ;;;
          evict_loop fuel' size
      end
    else ret tt
  else ret tt.

(** The rest of the loop once [randomkey()] has answered [reply]: the
    [delete] of the loop body, then the loop again. *)
Definition evict_after_draw (fuel : nat) (size : Z) (reply : option string)
    : M unit :=
  redis_connection.delete (db self) reply ;;;
  evict_loop fuel size.

(** The same loop on a server that other clients use as well.  The
    commands of the loop are separate round trips; [others i] is what the
    other clients do between the count and [randomkey()] in the turn that
    leaves [i] units of fuel.  With no other client it is [evict_loop]. *)
Fixpoint evict_loop_among (others : nat → M unit) (fuel : nat) (size : Z)
    : M unit :=
  if decide (size ≠ 0) then
    n <- num_transitions ;;
    if decide (n > size) then
      match fuel with
      | O => spin
      | S fuel' =>
          others fuel' ;;;
          key <- redis_connection.randomkey (db self) ;;
          redis_connection.delete (db self) key ;;;
          evict_loop_among others fuel' size
      end
    else ret tt
  else ret tt.

Definition _enforce_max_length (fuel : nat) : M unit :=
  let '(granularity, size) := max_size self in
  if decide (granularity = Transitions) then evict_loop fuel size
  else raise (ValueError OnlyTransitions).

(** [store]; [uuid] is the text of the identifier [uuid.uuid4()]
    returned for this call. *)
Definition store (fuel : nat) (uuid : string) (transition : Transition)
    : M unit :=
  redis_connection.set (db self) uuid (dumps transition) ;;;
  _enforce_max_length fuel.

(** A producer calling [store] once for each transition of a list, in
    order; each transition comes with the identifier minted for it. *)
Fixpoint store_all (fuel : nat) (items : list (string * Transition))
    : M unit :=
  match items with
  | [] => ret tt
  | (uuid, transition) :: rest =>
      store fuel uuid transition ;;;
      store_all fuel rest
  end.

Definition get_transition (transition_index : string) : M Transition :=
  blob <- redis_connection.get (db self) (Some transition_index) ;;
  pickle_loads blob.

Definition remove_transition (transition_index : string) : M unit :=
  redis_connection.delete (db self) (Some transition_index) ;;;
  ret tt.

Definition get (transition_index : string) : M Transition :=
  get_transition transition_index.

Definition remove (transition_index : string) : M unit :=
  remove_transition transition_index.

Definition clean : M unit :=
  redis_connection.flushall ;;;
  ret tt.

Definition mean_reward : M float64 :=
  ks <- redis_connection.keys (db self) ;;
  rewards <- for_each (fun key =>
               blob <- redis_connection.get (db self) (Some key) ;;
               t <- pickle_loads blob ;;
               ret (reward t)) ks ;;
  ret (np_mean rewards).

End Methods.

(** ** The parameters class

    [DistributedExperienceReplayParameters.__init__] fills in the size and
    the duplicate policy a buffer is built with by default; [path] names
    the class to build. *)
Module DistributedExperienceReplayParameters.

Record t := {
  max_size : MemoryGranularity * Z;
  allow_duplicates_in_batch_sampling : bool
}.

Definition init : t :=
  {| max_size := (Transitions, 1000000);
     allow_duplicates_in_batch_sampling := true |}.

Definition path (self : t) : string :=
  "rl_coach.memories.non_episodic.distributed_experience_replay:DistributedExperienceReplay".

End DistributedExperienceReplayParameters.

(** The same server with another sequence of random numbers. *)
Definition reseed (e : nat → nat) (s : Redis) : Redis :=
  {| dbs := dbs s; entropy := e; draws := draws s |}.

(** Another client deleting every key of database [d]. *)
Definition delete_all (d : nat) : M unit :=
  fun s => Return tt (update_db d (fun _ => ∅) s).

(** ** A concrete instance, for examples

    A transition is a text, pickled as itself; its reward is the length
    of the text.  Floats are binary64 and the mean adds from left to
    right starting at 0, which is numpy's order on lists of fewer than 8
    values.  [fresh_server] is a server just started: no database holds
    a key. *)
Definition float_of_nat (n : nat) : PrimFloat.float :=
  PrimFloat.of_uint63 (Uint63.of_Z (Z.of_nat n)).

Definition demo_numpy : NumPy :=
  {| float64 := PrimFloat.float;
     np_nan := PrimFloat.nan;
     np_mean_nonempty := fun x xs =>
       PrimFloat.div (fold_left PrimFloat.add (x :: xs) PrimFloat.zero)
                     (float_of_nat (S (List.length xs))) |}.

Definition demo_reward (t : string) : @float64 demo_numpy :=
  float_of_nat (String.length t).
Definition demo_dumps (t : string) : string := t.
Definition demo_loads (b : string) : option string := Some b.

Definition fresh_server : Redis :=
  {| dbs := ∅; entropy := fun i => i; draws := 0 |}.

Definition server_with (m : gmap nat (gmap string string)) : Redis :=
  {| dbs := m; entropy := fun i => i; draws := 0 |}.

Definition demo_buffer (capacity : Z) (duplicates : bool)
    : DistributedExperienceReplay :=
  {| max_size := (Transitions, capacity);
     allow_duplicates_in_batch_sampling := duplicates;
     db := 0 |}.

(** What [sample] collects: [idx] has pairwise different keys, each a key
    of the database [m] whose value unpickles to the transition recorded
    under it. *)
Definition drawn_from {Transition : Type} (loads : string → option Transition)
    (m : gmap string string) (idx : pydict Transition) : Prop :=
  NoDup idx.*1 ∧
  ∀ key t, (key, t) ∈ idx →
    ∃ k b, key = Some k ∧ m !! k = Some b ∧ loads b = Some t.

(** Every value of the database is a pickle. *)
Definition decodable {Transition : Type} (loads : string → option Transition)
    (m : gmap string string) : Prop :=
  ∀ k b, m !! k = Some b → is_Some (loads b).

(** A computation that leaves the whole server as it found it, random
    numbers included, however it ends. *)
Definition observer {A} (m : M A) : Prop :=
  ∀ s, final_state (m s) = s.

Create HintDb frame.

(** A computation that leaves every database as it found it, however it
    ends. *)
Definition read_only {A} (m : M A) : Prop :=
  ∀ s, dbs (final_state (m s)) = dbs s.

(** * Facts about the server and the client commands *)

Section ServerFacts.
Implicit Types (s : Redis) (d : nat) (k : string).

Lemma select_update_db d f s : select d (update_db d f s) = f (select d s).
Proof. unfold select at 1, update_db; simpl. by rewrite lookup_insert_eq. Qed.

Lemma select_update_db_ne d d' f s :
  d ≠ d' → select d' (update_db d f s) = select d' s.
Proof.
  intros Hne. unfold select, update_db; simpl. by rewrite lookup_insert_ne.
Qed.

Lemma select_tick d s : select d (tick s) = select d s.
Proof. reflexivity. Qed.

Lemma live_keys_tick d s : live_keys d (tick s) = live_keys d s.
Proof. reflexivity. Qed.

Lemma length_live_keys d s : List.length (live_keys d s) = size (select d s).
Proof. unfold live_keys. by rewrite length_fmap, length_map_to_list. Qed.

Lemma elem_of_live_keys d s k :
  k ∈ live_keys d s ↔ is_Some (select d s !! k).
Proof.
  unfold live_keys. rewrite list_elem_of_fmap. split.
  - intros [[k' v] [-> Hin]]. apply elem_of_map_to_list in Hin. by exists v.
  - intros [v Hv]. exists (k, v). split; [done|]. by apply elem_of_map_to_list.
Qed.

Lemma NoDup_live_keys d s : NoDup (live_keys d s).
Proof. apply NoDup_fst_map_to_list. Qed.

Lemma live_keys_nil d s : live_keys d s = [] ↔ select d s = ∅.
Proof.
  unfold live_keys. rewrite <- map_to_list_empty_iff. split.
  - apply fmap_nil_inv.
  - by intros ->.
Qed.

Lemma keyspace_lookup (m : gmap nat (gmap string string)) d :
  keyspace m !! d =
    if decide (default ∅ (m !! d) = ∅) then None
    else Some (Z.of_nat (size (default ∅ (m !! d)))).
Proof.
  unfold keyspace. rewrite lookup_omap.
  destruct (m !! d) as [kv|]; simpl; [done|].
  by rewrite decide_True.
Qed.

(** The reply of [RANDOMKEY]: a live key, unless the database is empty. *)
Lemma next_key_live d s :
  select d s ≠ ∅ → ∃ k, next_key d s = Some k ∧ is_Some (select d s !! k).
Proof.
  intros Hne. unfold next_key; simpl.
  assert (Hlen : (0 < List.length (live_keys d s))%nat).
  { destruct (live_keys d s) eqn:E; simpl; [|lia].
    by apply live_keys_nil in E. }
  destruct (lookup_lt_is_Some_2 (live_keys d s)
              (entropy s (draws s) mod List.length (live_keys d s))%nat)
    as [k Hk].
  { apply Nat.mod_upper_bound. lia. }
  exists k. split; [done|].
  apply elem_of_live_keys. by eapply list_elem_of_lookup_2.
Qed.

Lemma next_key_empty d s : select d s = ∅ → next_key d s = None.
Proof.
  intros He. unfold next_key; simpl.
  apply live_keys_nil in He. by rewrite He.
Qed.

Lemma next_key_Some d s k :
  next_key d s = Some k → is_Some (select d s !! k).
Proof.
  intros Hk. apply elem_of_live_keys.
  unfold next_key in Hk. by eapply list_elem_of_lookup_2.
Qed.

Lemma randomkey_live d s :
  select d s ≠ ∅ →
  ∃ k, redis_connection.randomkey d s = Return (Some k) (tick s) ∧
       is_Some (select d s !! k).
Proof.
  intros (k & Hk & Hlive)%next_key_live. exists k.
  unfold redis_connection.randomkey. by rewrite Hk.
Qed.

Lemma randomkey_empty d s :
  select d s = ∅ → redis_connection.randomkey d s = Return None (tick s).
Proof.
  intros He. unfold redis_connection.randomkey. by rewrite next_key_empty.
Qed.

Lemma delete_live d k s :
  is_Some (select d s !! k) →
  redis_connection.delete d (Some k) s =
    Return 1 (update_db d (base.delete k) s).
Proof. intros [v Hv]. unfold redis_connection.delete; simpl. by rewrite Hv. Qed.

Lemma delete_absent d name s :
  select d s !! encode name = None →
  redis_connection.delete d name s = Return 0 s.
Proof. intros Hv. unfold redis_connection.delete. by rewrite Hv. Qed.

End ServerFacts.

(** * Counting: [num_transitions] and [length] *)

Section Counting.
Variable self : DistributedExperienceReplay.

Lemma num_transitions_nonempty s :
  select (db self) s ≠ ∅ →
  num_transitions self s = Return (Z.of_nat (size (select (db self) s))) s.
Proof.
  intros Hne. unfold num_transitions, bind, redis_connection.info_keyspace.
  rewrite keyspace_lookup. fold (select (db self) s).
  by rewrite decide_False.
Qed.

Lemma num_transitions_empty_db s :
  select (db self) s = ∅ →
  num_transitions self s = Raise (KeyError (db self)) s.
Proof.
  intros He. unfold num_transitions, bind, redis_connection.info_keyspace.
  rewrite keyspace_lookup. fold (select (db self) s).
  by rewrite decide_True.
Qed.

(** Whatever [num_transitions] answers, the server is as before; a number
    it returns is the size of the database, which is then not empty. *)
Lemma num_transitions_Return s n s' :
  num_transitions self s = Return n s' →
  s' = s ∧ n = Z.of_nat (size (select (db self) s)) ∧ select (db self) s ≠ ∅.
Proof.
  destruct (decide (select (db self) s = ∅)) as [He|Hne].
  - by rewrite num_transitions_empty_db.
  - rewrite num_transitions_nonempty by done. by intros [= <- <-].
Qed.

Lemma num_transitions_same_state s :
  final_state (num_transitions self s) = s.
Proof.
  destruct (decide (select (db self) s = ∅)) as [He|Hne].
  - by rewrite num_transitions_empty_db.
  - by rewrite num_transitions_nonempty.
Qed.

End Counting.

(** C6 (the code departs from the claim on an empty buffer): when the
    database of the buffer holds no key, [num_transitions] and its alias
    [length] do not return 0; the keyspace report has no entry for the
    database and the subscript raises [KeyError]. *)
Theorem num_transitions_empty_raises (self : DistributedExperienceReplay) s :
  select (db self) s = ∅ →
  num_transitions self s = Raise (KeyError (db self)) s ∧
  length self s = Raise (KeyError (db self)) s.
Proof.
  intros He. unfold length. split; by apply num_transitions_empty_db.
Qed.

Lemma num_transitions_empty_raises_witness :
  select 0 fresh_server = ∅ ∧
  num_transitions (demo_buffer 3 true) fresh_server
    = Raise (KeyError 0) fresh_server ∧
  length (demo_buffer 3 true) fresh_server = Raise (KeyError 0) fresh_server.
Proof.
  split; [reflexivity|].
  apply (num_transitions_empty_raises (demo_buffer 3 true) fresh_server).
  reflexivity.
Defined.

(** * Commands that only read *)

Section Frame.
Context {Transition : Type}.
Variable loads : string → option Transition.
Variable self : DistributedExperienceReplay.

Lemma read_only_ret {A} (a : A) : read_only (ret a).
Proof. by intros s. Qed.

Lemma read_only_raise {A} e : read_only (@raise A e).
Proof. by intros s. Qed.

Lemma read_only_spin {A} : read_only (@spin A).
Proof. by intros s. Qed.

Lemma read_only_bind {A B} (m : M A) (k : A → M B) :
  read_only m → (∀ a, read_only (k a)) → read_only (bind m k).
Proof.
  intros Hm Hk s. unfold bind. specialize (Hm s).
  destruct (m s) as [a s'|e s'|s']; simpl in *; [|done..].
  by rewrite Hk.
Qed.

Lemma read_only_get d name : read_only (redis_connection.get d name).
Proof. by intros s. Qed.

Lemma read_only_randomkey d : read_only (redis_connection.randomkey d).
Proof. by intros s. Qed.

Lemma read_only_keys d : read_only (redis_connection.keys d).
Proof. by intros s. Qed.

Lemma read_only_info_keyspace : read_only redis_connection.info_keyspace.
Proof. by intros s. Qed.

Lemma read_only_pickle_loads x : read_only (pickle_loads loads x).
Proof.
  intros s. unfold pickle_loads.
  destruct x as [b|]; [|done]. by destruct (loads b).
Qed.

Lemma read_only_num_transitions : read_only (num_transitions self).
Proof. intros s. by rewrite num_transitions_same_state. Qed.

#[local] Hint Resolve read_only_ret read_only_raise read_only_spin
  read_only_get read_only_randomkey read_only_keys read_only_info_keyspace
  read_only_pickle_loads read_only_num_transitions : frame.

Lemma read_only_sample_with_duplicates fuel size idx :
  read_only (sample_with_duplicates loads self fuel size idx).
Proof.
  revert idx. induction fuel as [|fuel IH]; intros idx; simpl;
    case_decide; auto with frame.
  repeat (apply read_only_bind; [|intros ?]); auto with frame.
Qed.

Lemma read_only_sample_without_duplicates fuel size idx :
  read_only (sample_without_duplicates loads self fuel size idx).
Proof.
  revert idx. induction fuel as [|fuel IH]; intros idx; simpl;
    case_decide; auto with frame.
  apply read_only_bind; [auto with frame|intros key].
  destruct (dict_mem key idx); [apply IH|].
  repeat (apply read_only_bind; [|intros ?]); auto with frame.
Qed.

End Frame.

(** C10: [sample] never modifies the store.  Whatever the batch size, the
    duplicate policy and the way the call ends (a batch, the ValueError,
    any other exception, or a loop that is still running), the databases
    of the server, keys and values, are the ones the call started with. *)
Theorem sample_leaves_store_unchanged {Transition : Type}
    (loads : string → option Transition)
    (self : DistributedExperienceReplay) (fuel : nat) (size : Z) (s : Redis) :
  dbs (final_state (sample loads self fuel size s)) = dbs s.
Proof.
  revert s. change (read_only (sample loads self fuel size)).
  unfold sample. apply read_only_bind; [|intros idx; apply read_only_ret].
  destruct (allow_duplicates_in_batch_sampling self).
  - apply read_only_sample_with_duplicates.
  - apply read_only_bind; [apply read_only_num_transitions|intros n].
    case_decide.
    + apply read_only_sample_without_duplicates.
    + apply read_only_bind; [apply read_only_num_transitions|intros have].
      apply read_only_raise.
Qed.

(** * Point access: [get_transition], [remove_transition] *)

Section PointAccess.
Context {Transition : Type}.
Variable loads : string → option Transition.
Variable self : DistributedExperienceReplay.

Lemma get_transition_absent k s :
  select (db self) s !! k = None →
  get_transition loads self k s = Raise TypeError s.
Proof.
  intros Hk. unfold get_transition, bind, redis_connection.get; simpl.
  by rewrite Hk.
Qed.

Lemma get_transition_live k b s :
  select (db self) s !! k = Some b →
  get_transition loads self k s =
    match loads b with
    | Some t => Return t s
    | None => Raise UnpicklingError s
    end.
Proof.
  intros Hk. unfold get_transition, bind, redis_connection.get; simpl.
  rewrite Hk; simpl.
  by destruct (loads b).
Qed.

Lemma remove_transition_absent k s :
  select (db self) s !! k = None → remove_transition self k s = Return tt s.
Proof.
  intros Hk. unfold remove_transition, bind.
  by rewrite delete_absent.
Qed.

Lemma remove_transition_gone k s :
  ∃ s', remove_transition self k s = Return tt s' ∧
        select (db self) s' !! k = None.
Proof.
  destruct (select (db self) s !! k) as [v|] eqn:Hk.
  - exists (update_db (db self) (base.delete k) s).
    unfold remove_transition, bind. rewrite delete_live by eauto; simpl.
    split; [done|]. rewrite select_update_db. apply lookup_delete_eq.
  - exists s. by rewrite remove_transition_absent.
Qed.

(** [remove(k)] and then [get(k)]: the removal succeeds and the read
    raises. *)
Lemma remove_then_get_raises k s :
  ∃ s', (remove self k ;;; get loads self k) s = Raise TypeError s'.
Proof.
  destruct (remove_transition_gone k s) as (s' & Hrm & Hk).
  exists s'. unfold remove, get, bind at 1. rewrite Hrm.
  by apply get_transition_absent.
Qed.

End PointAccess.

(** C5 (the code departs from the claim): for a key the database does not
    hold, [get_transition] (and [get]) do not return [None]; the client's
    [get] answers [None] and [pickle.loads(None)] raises [TypeError].
    Removing such a key is the no-op the claim describes. *)
Theorem get_transition_of_missing_key_raises {Transition : Type}
    (loads : string → option Transition)
    (self : DistributedExperienceReplay) (k : string) (s : Redis) :
  select (db self) s !! k = None →
  get_transition loads self k s = Raise TypeError s ∧
  get loads self k s = Raise TypeError s ∧
  remove_transition self k s = Return tt s.
Proof.
  intros Hk. unfold get.
  auto using get_transition_absent, remove_transition_absent.
Qed.

Lemma get_transition_of_missing_key_raises_witness :
  select 0 fresh_server !! "k"%string = None ∧
  get_transition demo_loads (demo_buffer 3 true) "k" fresh_server
    = Raise TypeError fresh_server ∧
  get demo_loads (demo_buffer 3 true) "k" fresh_server
    = Raise TypeError fresh_server ∧
  remove_transition (demo_buffer 3 true) "k" fresh_server
    = Return tt fresh_server.
Proof.
  split; [reflexivity|].
  apply (get_transition_of_missing_key_raises
           demo_loads (demo_buffer 3 true) "k" fresh_server).
  reflexivity.
Defined.

(** * [clean] *)

Lemma clean_outcome s :
  clean s = Return tt {| dbs := ∅; entropy := entropy s; draws := draws s |}.
Proof. reflexivity. Qed.

(** Two buffers on one server, one on database 0 and one on database 1:
    cleaning the first empties the second as well. *)
Example clean_empties_the_neighbour :
  let s := server_with {[ 0%nat := {[ "a" := "x" ]};
                          1%nat := {[ "b" := "y" ]} ]}%string in
  select 1 s = {[ "b" := "y" ]}%string ∧
  select 1 (final_state (clean s)) = ∅.
Proof. split; reflexivity. Qed.

(** C8 (the code departs from the claim): [clean] sends [FLUSHALL], so
    after it every database of the server is empty, the ones of other
    buffers included; and counting the cleaned buffer does not return 0
    but raises [KeyError]. *)
Theorem clean_flushes_every_database
    (self : DistributedExperienceReplay) (s : Redis) :
  (∀ d, select d (final_state (clean s)) = ∅) ∧
  ∃ s', (clean ;;; num_transitions self) s = Raise (KeyError (db self)) s'.
Proof.
  split; [done|].
  eexists. unfold bind. rewrite clean_outcome.
  by apply num_transitions_empty_db.
Qed.

(** * [mean_reward] *)

Section MeanReward.
Context {np : NumPy} {Transition : Type}.
Variable reward : Transition → float64.
Variable loads : string → option Transition.
Variable self : DistributedExperienceReplay.

Lemma reward_of_live k b t s :
  select (db self) s !! k = Some b → loads b = Some t →
  (blob <- redis_connection.get (db self) (Some k) ;;
   t <- pickle_loads loads blob ;;
   ret (reward t)) s = Return (reward t) s.
Proof.
  intros Hk Hb. unfold bind, redis_connection.get, pickle_loads; simpl.
  by rewrite Hk, Hb.
Qed.

Lemma for_each_rewards (l : list string) (ts : list Transition) s :
  Forall2 (fun k t => ∃ b, select (db self) s !! k = Some b ∧ loads b = Some t)
          l ts →
  for_each (fun key =>
              blob <- redis_connection.get (db self) (Some key) ;;
              t <- pickle_loads loads blob ;;
              ret (reward t)) l s
  = Return (reward <$> ts) s.
Proof.
  induction 1 as [|k t l ts (b & Hk & Hb) _ IH]; [done|].
  cbn [for_each]. unfold bind at 1.
  rewrite (reward_of_live k b t) by done.
  unfold bind at 1. by rewrite IH.
Qed.

Lemma decoded_entries_live (kbs : list (string * string)) ts s :
  Forall2 (fun kb t => loads kb.2 = Some t) kbs ts →
  (∀ kb, kb ∈ kbs → select (db self) s !! kb.1 = Some kb.2) →
  Forall2 (fun k t => ∃ b, select (db self) s !! k = Some b ∧ loads b = Some t)
          kbs.*1 ts.
Proof.
  induction 1 as [|[k b] t kbs ts Hb _ IH]; intros Hin; [by constructor|].
  rewrite fmap_cons. constructor.
  - exists b. split; [|done]. apply (Hin (k, b)). by left.
  - apply IH. intros kb Hkb. apply Hin. by right.
Qed.

Lemma mean_reward_decoded (ts : list Transition) s :
  Forall2 (fun kb t => loads kb.2 = Some t)
          (map_to_list (select (db self) s)) ts →
  mean_reward reward loads self s = Return (np_mean (reward <$> ts)) s.
Proof.
  intros Hts. unfold mean_reward, bind at 1, redis_connection.keys.
  unfold bind. rewrite (for_each_rewards _ ts); [done|].
  unfold live_keys. apply decoded_entries_live; [done|].
  intros [k b] Hin. by apply elem_of_map_to_list.
Qed.

End MeanReward.




(** * Construction *)

(** [__init__] accepts a size in transitions and nothing else, so the
    [else] branch of [_enforce_max_length] is out of reach for a buffer it
    built. *)
Lemma init_Return ms dup n self s s' :
  init ms dup n s = Return self s' →
  s' = s ∧ (max_size self).1 = Transitions.
Proof.
  unfold init. case_decide as Hg; [done|].
  intros [= <- <-]. split; [done|]. simpl.
  by destruct (ms.1).
Qed.

(** * Capacity: [_enforce_max_length] and [store] *)

Section Eviction.
Variable self : DistributedExperienceReplay.
Local Abbreviation d := (db self).

Lemma evict_loop_unfold fuel cap :
  evict_loop self fuel cap =
    if decide (cap ≠ 0) then
      n <- num_transitions self ;;
      if decide (n > cap) then
        match fuel with
        | O => spin
        | S fuel' =>
            key <- redis_connection.randomkey d ;;
            evict_after_draw self fuel' cap key
        end
      else ret tt
    else ret tt.
Proof. by destruct fuel. Qed.

Lemma evict_loop_unbounded fuel s : evict_loop self fuel 0 s = Return tt s.
Proof. rewrite evict_loop_unfold. by rewrite decide_False by lia. Qed.

Lemma evict_loop_empty fuel cap s :
  cap ≠ 0 → select d s = ∅ →
  evict_loop self fuel cap s = Raise (KeyError d) s.
Proof.
  intros Hsz He. rewrite evict_loop_unfold, decide_True by done.
  unfold bind. by rewrite num_transitions_empty_db.
Qed.

Lemma evict_loop_within fuel cap s :
  select d s ≠ ∅ → Z.of_nat (size (select d s)) ≤ cap →
  evict_loop self fuel cap s = Return tt s.
Proof.
  intros Hne Hle. rewrite evict_loop_unfold. case_decide; [|done].
  unfold bind. rewrite num_transitions_nonempty by done.
  by rewrite decide_False by lia.
Qed.

Lemma evict_loop_out_of_fuel cap s :
  cap ≠ 0 → select d s ≠ ∅ → Z.of_nat (size (select d s)) > cap →
  evict_loop self 0 cap s = Spin s.
Proof.
  intros Hsz Hne Hgt. rewrite evict_loop_unfold, decide_True by done.
  unfold bind. rewrite num_transitions_nonempty by done.
  by rewrite decide_True by lia.
Qed.

(** One turn of the loop: some live key is deleted. *)
Lemma evict_loop_step fuel cap s :
  cap ≠ 0 → select d s ≠ ∅ → Z.of_nat (size (select d s)) > cap →
  ∃ k, is_Some (select d s !! k) ∧
       evict_loop self (S fuel) cap s =
       evict_loop self fuel cap (update_db d (base.delete k) (tick s)).
Proof.
  intros Hsz Hne Hgt.
  destruct (randomkey_live d s Hne) as (k & Hrk & Hk).
  exists k. split; [done|].
  rewrite evict_loop_unfold, decide_True by done.
  unfold bind at 1. rewrite num_transitions_nonempty by done.
  rewrite decide_True by lia.
  unfold bind at 1. rewrite Hrk.
  unfold evict_after_draw, bind at 1.
  by rewrite delete_live by (by rewrite select_tick).
Qed.

Lemma evict_loop_Return fuel cap s s' :
  evict_loop self fuel cap s = Return tt s' →
  select d s' ⊆ select d s ∧
  (cap ≠ 0 → Z.of_nat (size (select d s')) ≤ cap) ∧
  (∀ d', d' ≠ d → select d' s' = select d' s).
Proof.
  revert s. induction fuel as [|fuel IH]; intros s.
  - destruct (decide (cap = 0)) as [->|Hsz].
    { rewrite evict_loop_unbounded. intros [= <-]. done. }
    destruct (decide (select d s = ∅)) as [He|Hne].
    { by rewrite evict_loop_empty. }
    destruct (decide (Z.of_nat (size (select d s)) ≤ cap)).
    + rewrite evict_loop_within by done. intros [= <-]. done.
    + by rewrite evict_loop_out_of_fuel by (done || lia).
  - destruct (decide (cap = 0)) as [->|Hsz].
    { rewrite evict_loop_unbounded. intros [= <-]. done. }
    destruct (decide (select d s = ∅)) as [He|Hne].
    { by rewrite evict_loop_empty. }
    destruct (decide (Z.of_nat (size (select d s)) ≤ cap)).
    + rewrite evict_loop_within by done. intros [= <-]. done.
    + destruct (evict_loop_step fuel cap s) as (k & Hk & ->);
        [done | done | lia |].
      intros (Hsub & Hle & Hother)%IH.
      rewrite select_update_db, select_tick in Hsub.
      split_and!; [|done|].
      * etrans; [exact Hsub|]. apply delete_subseteq.
      * intros d' Hd'. rewrite Hother by done.
        by rewrite select_update_db_ne.
Qed.

(** With a positive bound and a database that is not empty the loop ends
    once it has fuel for every key in excess. *)
Lemma evict_loop_total fuel cap s :
  0 < cap → select d s ≠ ∅ →
  (size (select d s) - Z.to_nat cap ≤ fuel)%nat →
  ∃ s', evict_loop self fuel cap s = Return tt s' ∧
        size (select d s')
          = (size (select d s) `min` Z.to_nat cap)%nat.
Proof.
  intros Hsz. revert s. induction fuel as [|fuel IH]; intros s Hne Hfuel.
  - exists s. rewrite evict_loop_within by (done || lia). split; [done|lia].
  - destruct (decide (Z.of_nat (size (select d s)) ≤ cap)).
    { exists s. rewrite evict_loop_within by done. split; [done|lia]. }
    destruct (evict_loop_step fuel cap s) as (k & Hk & ->);
      [lia | done | lia |].
    pose proof (map_size_delete_Some k (select d s) Hk) as Hdel.
    destruct (IH (update_db d (base.delete k) (tick s))) as (s' & -> & Hs').
    + rewrite select_update_db, select_tick.
      apply map_size_non_empty_iff. lia.
    + rewrite select_update_db, select_tick. lia.
    + exists s'. split; [done|].
      rewrite Hs', select_update_db, select_tick. lia.
Qed.

(** The loop has no exit other than its test: when it returns, the
    bound is 0 or the count just taken is within it. *)
Lemma evict_loop_exit fuel cap s s' :
  evict_loop self fuel cap s = Return tt s' →
  cap = 0 ∨ ∃ n, num_transitions self s' = Return n s' ∧ n ≤ cap.
Proof.
  revert s. induction fuel as [|fuel IH]; intros s;
    (destruct (decide (cap = 0)) as [->|Hsz]; [by left|]);
    (destruct (decide (select d s = ∅)) as [He|Hne];
       [by rewrite evict_loop_empty|]);
    destruct (decide (Z.of_nat (size (select d s)) ≤ cap)) as [Hle|Hgt].
  - rewrite evict_loop_within by done. intros [= <-]. right.
    eexists. by rewrite num_transitions_nonempty.
  - by rewrite evict_loop_out_of_fuel by (done || lia).
  - rewrite evict_loop_within by done. intros [= <-]. right.
    eexists. by rewrite num_transitions_nonempty.
  - destruct (evict_loop_step fuel cap s) as (k & Hk & ->);
      [done | done | lia |].
    apply IH.
Qed.

(** An exception of the count leaves the loop as it is. *)
Lemma evict_loop_propagates fuel cap s e s' :
  cap ≠ 0 → num_transitions self s = Raise e s' →
  evict_loop self fuel cap s = Raise e s'.
Proof.
  intros Hsz He. rewrite evict_loop_unfold, decide_True by done.
  unfold bind. by rewrite He.
Qed.

(** [delete(None)] sends [DEL None]; unless some key is spelled [None]
    nothing is deleted, and the loop goes back to its test. *)
Lemma evict_after_draw_None fuel cap s :
  select d s !! "None"%string = None →
  evict_after_draw self fuel cap None s = evict_loop self fuel cap s.
Proof.
  intros Hk. unfold evict_after_draw, bind. by rewrite delete_absent.
Qed.

Lemma enforce_max_length_Return fuel s s' :
  _enforce_max_length self fuel s = Return tt s' →
  (max_size self).1 = Transitions ∧
  evict_loop self fuel (max_size self).2 s = Return tt s'.
Proof.
  unfold _enforce_max_length. destruct (max_size self) as [g cap]; simpl.
  by case_decide.
Qed.

Lemma enforce_max_length_transitions fuel cap :
  max_size self = (Transitions, cap) →
  _enforce_max_length self fuel = evict_loop self fuel cap.
Proof. unfold _enforce_max_length. by intros ->. Qed.

End Eviction.

Section Store.
Context {Transition : Type}.
Variable dumps : Transition → string.
Variable self : DistributedExperienceReplay.
Local Abbreviation d := (db self).

Lemma store_unfold fuel u t s :
  store dumps self fuel u t s =
  _enforce_max_length self fuel (update_db d (insert u (dumps t)) s).
Proof. reflexivity. Qed.

(** A completed [store] wrote [u], deleted some keys of the database of
    the buffer, and touched no other database. *)
Lemma store_Return fuel u t s s' :
  store dumps self fuel u t s = Return tt s' →
  select d s' ⊆ <[u := dumps t]> (select d s) ∧
  ((max_size self).2 ≠ 0 → Z.of_nat (size (select d s')) ≤ (max_size self).2) ∧
  (∀ d', d' ≠ d → select d' s' = select d' s).
Proof.
  rewrite store_unfold.
  intros [_ (Hsub & Hle & Hother)%evict_loop_Return]%enforce_max_length_Return.
  rewrite select_update_db in Hsub. split_and!; [done..|].
  intros d' Hd'. rewrite Hother by done. by rewrite select_update_db_ne.
Qed.

(** [store] completes: with a bound that is not negative, fuel for the
    keys in excess is enough. *)
Lemma store_total fuel cap u t s :
  max_size self = (Transitions, cap) → 0 ≤ cap →
  cap = 0 ∨ (size (<[u := dumps t]> (select d s)) - Z.to_nat cap ≤ fuel)%nat →
  ∃ s', store dumps self fuel u t s = Return tt s' ∧
        size (select d s') =
          if decide (cap = 0) then size (<[u := dumps t]> (select d s))
          else (size (<[u := dumps t]> (select d s)) `min` Z.to_nat cap)%nat.
Proof.
  intros Hmax Hcap Hfuel.
  rewrite store_unfold, (enforce_max_length_transitions _ _ cap) by done.
  case_decide as Hz.
  - subst cap. eexists. rewrite evict_loop_unbounded. split; [done|].
    by rewrite select_update_db.
  - destruct (evict_loop_total self fuel cap
                (update_db d (insert u (dumps t)) s)) as (s' & Hs' & Hsize).
    + lia.
    + rewrite select_update_db. apply insert_non_empty.
    + rewrite select_update_db. destruct Hfuel; [done|lia].
    + exists s'. split; [done|]. by rewrite Hsize, select_update_db.
Qed.

(** Storing a list of transitions under fresh, pairwise different
    identifiers, one call after the other, with a positive bound. *)
Lemma store_all_spec fuel cap (items : list (string * Transition)) s :
  max_size self = (Transitions, cap) → 0 < cap → (1 ≤ fuel)%nat →
  NoDup items.*1 →
  (∀ k, k ∈ items.*1 → select d s !! k = None) →
  Z.of_nat (size (select d s)) ≤ cap →
  ∃ s', store_all dumps self fuel items s = Return tt s' ∧
        size (select d s') =
          ((size (select d s) + List.length items) `min` Z.to_nat cap)%nat ∧
        (∀ k b, select d s' !! k = Some b →
                select d s !! k = Some b ∨
                ∃ t, (k, t) ∈ items ∧ b = dumps t).
Proof.
  intros Hmax Hcap Hfuel. revert s.
  induction items as [|[u t] items IH]; intros s Hnd Hfresh Hsize.
  - exists s. split; [done|]. split; [simpl; lia|]. by left.
  - rewrite fmap_cons in Hnd, Hfresh. simpl in Hnd, Hfresh.
    apply NoDup_cons in Hnd as [Hu Hnd].
    assert (Hins : size (<[u := dumps t]> (select d s)) = S (size (select d s))).
    { apply map_size_insert_None, Hfresh. by left. }
    destruct (store_total fuel cap u t s) as (s1 & Hst & Hsz1);
      [done | lia | right; lia |].
    rewrite decide_False in Hsz1 by lia.
    destruct (store_Return _ _ _ _ _ Hst) as (Hsub & _ & _).
    destruct (IH s1) as (s' & Hall & Hsz' & Hfrom).
    + done.
    + intros k Hk.
      eapply lookup_weaken_None; [|exact Hsub].
      rewrite lookup_insert_ne by (intros ->; done).
      apply Hfresh. by right.
    + lia.
    + exists s'. cbn [store_all]. unfold bind at 1. rewrite Hst.
      split; [done|]. split; [simpl; lia|].
      intros k b [Hk|(t' & Hin & ->)]%Hfrom.
      * eapply lookup_weaken in Hk; [|exact Hsub].
        apply lookup_insert_Some in Hk as [[<- <-]|[_ Hk]].
        -- right. exists t. split; [by left|done].
        -- by left.
      * right. exists t'. split; [by right|done].
Qed.

End Store.

(** C2: after any completed [store] the database of the buffer holds at
    most [Capacity] keys, unless [Capacity] is 0; and with capacity 3,
    five transitions stored one at a time into an empty buffer, under five
    different identifiers, leave a count of 3, every surviving entry being
    one of the five that were stored. *)
Theorem store_keeps_within_capacity {Transition : Type}
    (dumps : Transition → string) (self : DistributedExperienceReplay) :
  (∀ fuel u t s s',
     store dumps self fuel u t s = Return tt s' →
     (max_size self).2 ≠ 0 →
     Z.of_nat (size (select (db self) s')) ≤ (max_size self).2) ∧
  (∀ fuel s u1 u2 u3 u4 u5 t1 t2 t3 t4 t5,
     max_size self = (Transitions, 3) →
     select (db self) s = ∅ →
     (1 ≤ fuel)%nat →
     NoDup [u1; u2; u3; u4; u5] →
     ∃ s',
       store_all dumps self fuel
         [(u1, t1); (u2, t2); (u3, t3); (u4, t4); (u5, t5)] s = Return tt s' ∧
       num_transitions self s' = Return 3 s' ∧
       ∀ k b, select (db self) s' !! k = Some b →
              ∃ t, (k, t) ∈ [(u1, t1); (u2, t2); (u3, t3); (u4, t4); (u5, t5)] ∧
                   b = dumps t).
Proof.
  split.
  - intros fuel u t s s' Hst Hcap.
    by destruct (store_Return _ _ _ _ _ _ _ Hst) as (_ & Hle & _); auto.
  - intros fuel s u1 u2 u3 u4 u5 t1 t2 t3 t4 t5 Hmax Hempty Hfuel Hnd.
    destruct (store_all_spec dumps self fuel 3
                [(u1, t1); (u2, t2); (u3, t3); (u4, t4); (u5, t5)] s)
      as (s' & Hall & Hsize & Hfrom); try done.
    + intros k _. by rewrite Hempty.
    + rewrite Hempty, map_size_empty. lia.
    + rewrite Hempty, map_size_empty in Hsize. simpl in Hsize.
      exists s'. split; [done|]. split.
      * rewrite num_transitions_nonempty.
        -- by rewrite Hsize.
        -- apply map_size_non_empty_iff. rewrite Hsize. lia.
      * intros k b [Hk|Hk]%Hfrom; [|done].
        by rewrite Hempty in Hk.
Qed.

Lemma store_keeps_within_capacity_witness :
  ∃ s',
    store_all demo_dumps (demo_buffer 3 true) 1
      [("u1", "a"); ("u2", "b"); ("u3", "c"); ("u4", "d"); ("u5", "e")]%string
      fresh_server = Return tt s' ∧
    num_transitions (demo_buffer 3 true) s' = Return 3 s'.
Proof.
  destruct (store_keeps_within_capacity demo_dumps (demo_buffer 3 true))
    as [_ H].
  destruct (H 1%nat fresh_server "u1" "u2" "u3" "u4" "u5" "a" "b" "c" "d" "e")%string
    as (s' & Hall & Hcount & _).
  - reflexivity.
  - reflexivity.
  - lia.
  - compute_done.
  - exists s'. split; [exact Hall | exact Hcount].
Defined.

(** C4: a transition read back under the key it was stored with is the
    transition that was stored, as long as the key is still there (the
    eviction that ends [store] did not pick it, and nothing has touched
    it since) and unpickling inverts pickling on it. *)
Theorem get_after_store_roundtrip {Transition : Type}
    (dumps : Transition → string) (loads : string → option Transition)
    (self : DistributedExperienceReplay)
    (fuel : nat) (u : string) (t : Transition) (s s1 s2 : Redis) :
  loads (dumps t) = Some t →
  store dumps self fuel u t s = Return tt s1 →
  is_Some (select (db self) s1 !! u) →
  select (db self) s2 !! u = select (db self) s1 !! u →
  get_transition loads self u s2 = Return t s2.
Proof.
  intros Hcodec Hst [b Hb] Hsame.
  destruct (store_Return _ _ _ _ _ _ _ Hst) as (Hsub & _ & _).
  pose proof (lookup_weaken _ _ _ _ Hb Hsub) as Hins.
  rewrite lookup_insert_eq in Hins. injection Hins as <-.
  rewrite (get_transition_live loads self u (dumps t)) by congruence.
  by rewrite Hcodec.
Qed.

Lemma get_after_store_roundtrip_witness :
  let self := demo_buffer 3 true in
  let s1 := final_state (store demo_dumps self 1 "u" "hello" fresh_server) in
  get_transition demo_loads self "u" s1 = Return "hello"%string s1.
Proof.
  intros self s1.
  apply (get_after_store_roundtrip demo_dumps demo_loads self 1 "u" "hello"
           fresh_server s1 s1).
  - reflexivity.
  - reflexivity.
  - exists "hello"%string. reflexivity.
  - reflexivity.
Defined.

Section EvictionAmongClients.
Variable self : DistributedExperienceReplay.
Local Abbreviation d := (db self).

Lemma evict_loop_among_unfold others fuel cap :
  evict_loop_among self others fuel cap =
    if decide (cap ≠ 0) then
      n <- num_transitions self ;;
      if decide (n > cap) then
        match fuel with
        | O => spin
        | S fuel' =>
            others fuel' ;;;
            key <- redis_connection.randomkey d ;;
            redis_connection.delete d key ;;;
            evict_loop_among self others fuel' cap
        end
      else ret tt
    else ret tt.
Proof. by destruct fuel. Qed.

Lemma bind_ext {A B} (m : M A) (k1 k2 : A → M B) s :
  (∀ a s', k1 a s' = k2 a s') → bind m k1 s = bind m k2 s.
Proof. intros Hk. unfold bind. destruct (m s); auto. Qed.

Lemma ret_bind {A B} (a : A) (k : A → M B) s : bind (ret a) k s = k a s.
Proof. reflexivity. Qed.

(** Left alone, the loop is the loop of [_enforce_max_length]. *)
Lemma evict_loop_among_alone fuel cap s :
  evict_loop_among self (fun _ => ret tt) fuel cap s
  = evict_loop self fuel cap s.
Proof.
  revert s. induction fuel as [|fuel IH]; intros s;
    rewrite evict_loop_among_unfold, evict_loop_unfold;
    (case_decide; [|done]); apply bind_ext; intros n s1;
    (case_decide; [|done]); [done|].
  rewrite ret_bind. apply bind_ext. intros key s2.
  unfold evict_after_draw. apply bind_ext. intros _ s3. apply IH.
Qed.

Lemma evict_loop_among_empty others fuel cap s :
  cap ≠ 0 → select d s = ∅ →
  evict_loop_among self others fuel cap s = Raise (KeyError d) s.
Proof.
  intros Hsz He. rewrite evict_loop_among_unfold, decide_True by done.
  unfold bind. by rewrite num_transitions_empty_db.
Qed.

(** The turn of the loop in which the other clients empty the database
    after the count: the absent key does no harm, the next count does. *)
Lemma evict_loop_among_emptied others fuel cap s s1 :
  0 < cap → Z.of_nat (size (select d s)) > cap →
  others fuel s = Return tt s1 → select d s1 = ∅ →
  evict_loop_among self others (S fuel) cap s = Raise (KeyError d) (tick s1).
Proof.
  intros Hcap Hgt Hothers He.
  assert (Hne : select d s ≠ ∅).
  { apply map_size_non_empty_iff. lia. }
  rewrite evict_loop_among_unfold, decide_True by lia.
  unfold bind at 1. rewrite num_transitions_nonempty by done.
  rewrite decide_True by lia.
  unfold bind at 1. rewrite Hothers.
  unfold bind at 1. rewrite randomkey_empty by done.
  unfold bind at 1. rewrite delete_absent
    by (by rewrite select_tick, He, lookup_empty).
  by apply evict_loop_among_empty; [lia|].
Qed.

End EvictionAmongClients.

(** C9 (the code departs from the claim): the loop test has passed, other
    clients then empty the database, and [randomkey()] answers absent.
    The absent key itself does no harm: [delete(None)] removes nothing and
    raises nothing.  But eviction does not stop without an error: the loop
    goes back to its test, and the count of the emptied database raises
    [KeyError], which leaves the method. *)
Theorem eviction_raises_once_the_database_is_emptied
    (self : DistributedExperienceReplay) (others : nat → M unit)
    (fuel : nat) (cap : Z) (s s1 : Redis) :
  0 < cap →
  Z.of_nat (size (select (db self) s)) > cap →
  others fuel s = Return tt s1 →
  select (db self) s1 = ∅ →
  redis_connection.randomkey (db self) s1 = Return None (tick s1) ∧
  redis_connection.delete (db self) None (tick s1) = Return 0 (tick s1) ∧
  evict_loop_among self others (S fuel) cap s
    = Raise (KeyError (db self)) (tick s1).
Proof.
  intros Hcap Hgt Hothers He. split_and!.
  - by apply randomkey_empty.
  - apply delete_absent. by rewrite select_tick, He, lookup_empty.
  - by apply evict_loop_among_emptied.
Qed.

Lemma eviction_raises_once_the_database_is_emptied_witness :
  let s := server_with {[ 0%nat := {[ "a" := "x"; "b" := "y" ]} ]}%string in
  let self := demo_buffer 1 true in
  let s1 := final_state (delete_all 0 s) in
  num_transitions self s = Return 2 s ∧
  evict_loop_among self (fun _ => delete_all 0) 5 1 s
    = Raise (KeyError 0) (tick s1).
Proof.
  intros s self s1. split; [reflexivity|].
  apply (eviction_raises_once_the_database_is_emptied
           self (fun _ => delete_all 0) 4 1 s s1).
  - lia.
  - vm_compute. reflexivity.
  - reflexivity.
  - reflexivity.
Defined.

(** * Sampling *)

Section DictFacts.
Context {V : Type}.
Implicit Types (d : pydict V) (k : option string) (v : V).

Lemma dict_set_keys k v d :
  (dict_set k v d).*1 = if decide (k ∈ d.*1) then d.*1 else d.*1 ++ [k].
Proof.
  induction d as [|[k' v'] d IH]; cbn [dict_set].
  - rewrite decide_False; [done|]. apply not_elem_of_nil.
  - rewrite (fmap_cons fst (k', v') d). cbn [fst].
    destruct (decide (k = k')) as [->|Hne].
    + rewrite decide_True by (by left). by rewrite fmap_cons.
    + rewrite fmap_cons, IH. cbn [fst].
      destruct (decide (k ∈ d.*1)) as [Hin|Hout].
      * by rewrite decide_True by (by right).
      * rewrite decide_False; [done|].
        by intros [?|?]%elem_of_cons.
Qed.

Lemma dict_set_elem k v d kv :
  kv ∈ dict_set k v d → kv = (k, v) ∨ kv ∈ d.
Proof.
  induction d as [|[k' v'] d IH]; cbn [dict_set].
  - intros ->%list_elem_of_singleton. by left.
  - destruct (decide (k = k')) as [->|Hne].
    + intros [->|Hin]%elem_of_cons; [by left|]. right. by right.
    + intros [->|Hin]%elem_of_cons; [right; by left|].
      destruct (IH Hin) as [->|Hin']; [by left|]. right. by right.
Qed.

Lemma length_dict_set k v d :
  List.length (dict_set k v d) =
    if decide (k ∈ d.*1) then List.length d else S (List.length d).
Proof.
  rewrite <- (length_fmap fst (dict_set k v d)), dict_set_keys.
  case_decide; rewrite ?length_app, !length_fmap; simpl; lia.
Qed.

Lemma dict_mem_spec k d : dict_mem k d = true ↔ k ∈ d.*1.
Proof. unfold dict_mem. apply bool_decide_eq_true. Qed.

End DictFacts.

Section Sampling.
Context {Transition : Type}.
Variable loads : string → option Transition.
Variable self : DistributedExperienceReplay.
Local Abbreviation d := (db self).
Implicit Types (idx : pydict Transition) (s : Redis) (n : Z).

(** The three calls that fetch a transition, by cases on what the
    database holds under the key. *)
Lemma fetch_cases {A} key (K : Transition → M A) s :
  (blob <- redis_connection.get d key ;;
   t <- pickle_loads loads blob ;;
   K t) s =
    match select d s !! encode key with
    | None => Raise TypeError s
    | Some b =>
        match loads b with
        | Some t => K t s
        | None => Raise UnpicklingError s
        end
    end.
Proof.
  unfold bind, redis_connection.get; simpl.
  destruct (select d s !! encode key) as [b|]; simpl; [|done].
  by destruct (loads b).
Qed.

Lemma sample_with_duplicates_unfold fuel n idx s :
  sample_with_duplicates loads self fuel n idx s =
    if decide (Z.of_nat (List.length idx) ≠ n) then
      match fuel with
      | O => Spin s
      | S fuel' =>
          match select d s !! encode (next_key d s) with
          | None => Raise TypeError (tick s)
          | Some b =>
              match loads b with
              | Some t =>
                  sample_with_duplicates loads self fuel' n
                    (dict_set (next_key d s) t idx) (tick s)
              | None => Raise UnpicklingError (tick s)
              end
          end
      end
    else Return idx s.
Proof.
  destruct fuel; simpl; case_decide; try done.
  unfold bind at 1, redis_connection.randomkey. by rewrite fetch_cases.
Qed.

Lemma sample_without_duplicates_unfold fuel n idx s :
  sample_without_duplicates loads self fuel n idx s =
    if decide (Z.of_nat (List.length idx) ≠ n) then
      match fuel with
      | O => Spin s
      | S fuel' =>
          if dict_mem (next_key d s) idx then
            sample_without_duplicates loads self fuel' n idx (tick s)
          else
            match select d s !! encode (next_key d s) with
            | None => Raise TypeError (tick s)
            | Some b =>
                match loads b with
                | Some t =>
                    sample_without_duplicates loads self fuel' n
                      (dict_set (next_key d s) t idx) (tick s)
                | None => Raise UnpicklingError (tick s)
                end
            end
      end
    else Return idx s.
Proof.
  destruct fuel; simpl; case_decide; try done.
  unfold bind at 1, redis_connection.randomkey.
  destruct (dict_mem (next_key d s) idx); [done|].
  by rewrite fetch_cases.
Qed.

(** A key that was fetched is a live key. *)
Lemma fetched_key_live s b :
  select d s !! encode (next_key d s) = Some b →
  ∃ k, next_key d s = Some k ∧ select d s !! k = Some b.
Proof.
  destruct (next_key d s) as [k|] eqn:Hk; simpl; [by exists k|].
  destruct (decide (select d s = ∅)) as [He|Hne].
  - by rewrite He, lookup_empty.
  - destruct (next_key_live d s Hne) as (k & Hk' & _). congruence.
Qed.

Lemma drawn_from_nil m : drawn_from loads m [].
Proof. split; [constructor|]. intros key t Hin. by apply elem_of_nil in Hin. Qed.

Lemma drawn_from_dict_set m idx k b t :
  drawn_from loads m idx → m !! k = Some b → loads b = Some t →
  drawn_from loads m (dict_set (Some k) t idx).
Proof.
  intros [Hnd Hall] Hk Hb. split.
  - rewrite dict_set_keys. case_decide; [done|].
    apply NoDup_app. split_and!; [done| |apply NoDup_singleton].
    intros x Hx ->%list_elem_of_singleton. done.
  - intros key t' [[= -> ->]|Hin]%dict_set_elem; [|by apply Hall].
    by exists k, b.
Qed.

(** A dictionary drawn from a database has no more entries than the
    database has keys. *)
Lemma drawn_from_length m idx :
  drawn_from loads m idx → (List.length idx ≤ size m)%nat.
Proof.
  intros [Hnd Hall].
  rewrite <- (length_fmap fst idx), <- (length_map_to_list m),
    <- (length_fmap (fun kb => Some kb.1) (map_to_list m)).
  apply submseteq_length, NoDup_submseteq; [done|].
  intros key [[key' t] [-> Hin]]%list_elem_of_fmap.
  destruct (Hall _ _ Hin) as (k & b & -> & Hk & _).
  apply list_elem_of_fmap. exists (k, b). split; [done|].
  by apply elem_of_map_to_list.
Qed.

(** What a loop returns, if it returns: [size] entries drawn from the
    database. *)
Lemma sample_with_duplicates_Return fuel n idx s idx' s' :
  drawn_from loads (select d s) idx →
  sample_with_duplicates loads self fuel n idx s = Return idx' s' →
  drawn_from loads (select d s) idx' ∧ Z.of_nat (List.length idx') = n.
Proof.
  revert idx s. induction fuel as [|fuel IH]; intros idx s Hidx;
    rewrite sample_with_duplicates_unfold; case_decide as Hlen;
    try done; try (intros [= <- <-]; split; [done|lia]).
  destruct (select d s !! encode (next_key d s)) as [b|] eqn:Hget; [|done].
  destruct (loads b) as [t|] eqn:Hb; [|done].
  destruct (fetched_key_live s b Hget) as (k & -> & Hk).
  intros Hret. eapply (IH _ (tick s)); [|exact Hret].
  rewrite select_tick. by eapply drawn_from_dict_set.
Qed.

Lemma sample_without_duplicates_Return fuel n idx s idx' s' :
  drawn_from loads (select d s) idx →
  sample_without_duplicates loads self fuel n idx s = Return idx' s' →
  drawn_from loads (select d s) idx' ∧ Z.of_nat (List.length idx') = n.
Proof.
  revert idx s. induction fuel as [|fuel IH]; intros idx s Hidx;
    rewrite sample_without_duplicates_unfold; case_decide as Hlen;
    try done; try (intros [= <- <-]; split; [done|lia]).
  destruct (dict_mem (next_key d s) idx).
  { intros Hret. by eapply (IH _ (tick s)). }
  destruct (select d s !! encode (next_key d s)) as [b|] eqn:Hget; [|done].
  destruct (loads b) as [t|] eqn:Hb; [|done].
  destruct (fetched_key_live s b Hget) as (k & -> & Hk).
  intros Hret. eapply (IH _ (tick s)); [|exact Hret].
  rewrite select_tick. by eapply drawn_from_dict_set.
Qed.

(** The loops end: the database is not empty, every value unpickles, and
    the keys collected so far together with the next [m] answers of
    [randomkey] make up at least [size] different keys. *)
Lemma sample_with_duplicates_total m fuel n idx s :
  select d s ≠ ∅ → decodable loads (select d s) →
  drawn_from loads (select d s) idx →
  Z.of_nat (List.length idx) ≤ n →
  n ≤ Z.of_nat (size (list_to_set (C:=gset (option string))
                        (idx.*1 ++ upcoming d s m))) →
  (m ≤ fuel)%nat →
  ∃ idx' s', sample_with_duplicates loads self fuel n idx s = Return idx' s'.
Proof.
  intros Hne Hdec. revert fuel idx s Hne Hdec.
  induction m as [|m IH]; intros fuel idx s Hne Hdec Hidx Hlen Hfair Hfuel;
    rewrite sample_with_duplicates_unfold; (case_decide as Hn; [|by eauto]).
  - exfalso. cbn [upcoming] in Hfair. rewrite app_nil_r in Hfair.
    rewrite size_list_to_set, length_fmap in Hfair by apply Hidx. lia.
  - destruct fuel as [|fuel]; [lia|].
    destruct (next_key_live d s Hne) as (k & Hk & [b Hb]).
    cbn [upcoming] in Hfair. rewrite Hk in Hfair |- *.
    change (encode (Some k)) with k.
    rewrite Hb. destruct (Hdec k b Hb) as [t Ht]. rewrite Ht.
    apply IH; [done | done | by eapply drawn_from_dict_set | | | lia].
    + rewrite length_dict_set. case_decide; lia.
    + etrans; [exact Hfair|]. apply Nat2Z.inj_le, Nat.eq_le_incl. f_equal.
      rewrite dict_set_keys. case_decide; set_solver.
Qed.

Lemma sample_without_duplicates_total m fuel n idx s :
  select d s ≠ ∅ → decodable loads (select d s) →
  drawn_from loads (select d s) idx →
  Z.of_nat (List.length idx) ≤ n →
  n ≤ Z.of_nat (size (list_to_set (C:=gset (option string))
                        (idx.*1 ++ upcoming d s m))) →
  (m ≤ fuel)%nat →
  ∃ idx' s', sample_without_duplicates loads self fuel n idx s = Return idx' s'.
Proof.
  intros Hne Hdec. revert fuel idx s Hne Hdec.
  induction m as [|m IH]; intros fuel idx s Hne Hdec Hidx Hlen Hfair Hfuel;
    rewrite sample_without_duplicates_unfold; (case_decide as Hn; [|by eauto]).
  - exfalso. cbn [upcoming] in Hfair. rewrite app_nil_r in Hfair.
    rewrite size_list_to_set, length_fmap in Hfair by apply Hidx. lia.
  - destruct fuel as [|fuel]; [lia|].
    destruct (next_key_live d s Hne) as (k & Hk & [b Hb]).
    cbn [upcoming] in Hfair. rewrite Hk in Hfair |- *.
    destruct (dict_mem (Some k) idx) eqn:Hmem.
    { apply dict_mem_spec in Hmem.
      apply IH; [done | done | done | done | | lia].
      etrans; [exact Hfair|]. apply Nat2Z.inj_le, Nat.eq_le_incl. f_equal.
      set_solver. }
    change (encode (Some k)) with k.
    rewrite Hb. destruct (Hdec k b Hb) as [t Ht]. rewrite Ht.
    apply IH; [done | done | by eapply drawn_from_dict_set | | | lia].
    + rewrite length_dict_set. case_decide; lia.
    + etrans; [exact Hfair|]. apply Nat2Z.inj_le, Nat.eq_le_incl. f_equal.
      rewrite dict_set_keys. case_decide; set_solver.
Qed.

(** Neither loop raises [ValueError] or [KeyError]. *)
Lemma sample_without_duplicates_Raise fuel n idx s e s' :
  sample_without_duplicates loads self fuel n idx s = Raise e s' →
  e = TypeError ∨ e = UnpicklingError.
Proof.
  revert idx s. induction fuel as [|fuel IH]; intros idx s;
    rewrite sample_without_duplicates_unfold; case_decide; try done.
  destruct (dict_mem (next_key d s) idx); [apply IH|].
  destruct (select d s !! encode (next_key d s)) as [b|];
    [|intros [= <- _]; by left].
  destruct (loads b); [apply IH|intros [= <- _]; by right].
Qed.

(** On a database that is not empty and whose values all unpickle, a
    loop raises nothing: it returns or is still running. *)
Lemma sample_with_duplicates_no_raise fuel n idx s e s' :
  select d s ≠ ∅ → decodable loads (select d s) →
  sample_with_duplicates loads self fuel n idx s ≠ Raise e s'.
Proof.
  intros Hne Hdec. revert idx s Hne Hdec.
  induction fuel as [|fuel IH]; intros idx s Hne Hdec;
    rewrite sample_with_duplicates_unfold; case_decide; try done.
  destruct (next_key_live d s Hne) as (k & -> & [b Hb]).
  change (encode (Some k)) with k.
  rewrite Hb. destruct (Hdec k b Hb) as [t ->]. by apply IH.
Qed.

Lemma sample_without_duplicates_no_raise fuel n idx s e s' :
  select d s ≠ ∅ → decodable loads (select d s) →
  sample_without_duplicates loads self fuel n idx s ≠ Raise e s'.
Proof.
  intros Hne Hdec. revert idx s Hne Hdec.
  induction fuel as [|fuel IH]; intros idx s Hne Hdec;
    rewrite sample_without_duplicates_unfold; case_decide; try done.
  destruct (next_key_live d s Hne) as (k & -> & [b Hb]).
  destruct (dict_mem (Some k) idx); [by apply IH|].
  change (encode (Some k)) with k.
  rewrite Hb. destruct (Hdec k b Hb) as [t ->]. by apply IH.
Qed.

(** ** [sample], branch without duplicates *)

Lemma sample_unique_empty fuel n s :
  allow_duplicates_in_batch_sampling self = false →
  select d s = ∅ →
  sample loads self fuel n s = Raise (KeyError d) s.
Proof.
  intros Hdup He. unfold sample. rewrite Hdup.
  unfold bind. by rewrite num_transitions_empty_db.
Qed.

Lemma sample_unique_insufficient fuel n s :
  allow_duplicates_in_batch_sampling self = false →
  select d s ≠ ∅ →
  Z.of_nat (size (select d s)) < n →
  sample loads self fuel n s =
    Raise (ValueError (NotEnoughTransitions (Z.of_nat (size (select d s))))) s.
Proof.
  intros Hdup Hne Hlt. unfold sample. rewrite Hdup.
  unfold bind. rewrite num_transitions_nonempty by done.
  rewrite decide_False by lia.
  by rewrite num_transitions_nonempty.
Qed.

Lemma sample_unique_sufficient fuel n s :
  allow_duplicates_in_batch_sampling self = false →
  select d s ≠ ∅ →
  n ≤ Z.of_nat (size (select d s)) →
  sample loads self fuel n s =
    (idx <- sample_without_duplicates loads self fuel n [] ;;
     ret (dict_values idx)) s.
Proof.
  intros Hdup Hne Hle. unfold sample. rewrite Hdup.
  unfold bind at 1. unfold bind at 1.
  rewrite num_transitions_nonempty by done.
  by rewrite decide_True by lia.
Qed.

(** With enough transitions the branch never raises the ValueError, and
    a batch it returns has [size] entries, fetched under [size] different
    live keys. *)
Lemma sample_unique_partial fuel n s :
  allow_duplicates_in_batch_sampling self = false →
  select d s ≠ ∅ →
  n ≤ Z.of_nat (size (select d s)) →
  (∀ e s', sample loads self fuel n s = Raise e s' →
           e = TypeError ∨ e = UnpicklingError) ∧
  (∀ batch s', sample loads self fuel n s = Return batch s' →
     ∃ idx, batch = dict_values idx ∧
            drawn_from loads (select d s) idx ∧
            Z.of_nat (List.length batch) = n).
Proof.
  intros Hdup Hne Hle. rewrite sample_unique_sufficient by done.
  unfold bind.
  destruct (sample_without_duplicates loads self fuel n [] s)
    as [idx s1|e s1|s1] eqn:Hloop.
  - split; [done|]. intros batch s' [= <- <-]. exists idx.
    destruct (sample_without_duplicates_Return _ _ _ _ _ _
                (drawn_from_nil _) Hloop) as [Hidx Hlen].
    unfold dict_values. by rewrite length_fmap.
  - split; [|done]. intros e' s' [= <- <-].
    by eapply sample_without_duplicates_Raise.
  - done.
Qed.

(** And it does return such a batch when the next [m] answers of
    [randomkey] name at least [size] different keys. *)
Lemma sample_unique_total m fuel n s :
  allow_duplicates_in_batch_sampling self = false →
  select d s ≠ ∅ → decodable loads (select d s) →
  0 ≤ n ≤ Z.of_nat (size (select d s)) →
  n ≤ Z.of_nat (size (list_to_set (C:=gset (option string))
                        (upcoming d s m))) →
  (m ≤ fuel)%nat →
  ∃ idx s', sample loads self fuel n s = Return (dict_values idx) s' ∧
            dbs s' = dbs s ∧
            drawn_from loads (select d s) idx ∧
            Z.of_nat (List.length (dict_values idx)) = n.
Proof.
  intros Hdup Hne Hdec [Hn0 Hle] Hfair Hfuel.
  destruct (sample_without_duplicates_total m fuel n [] s)
    as (idx & s' & Hloop); [done | done | apply drawn_from_nil
                            | simpl; lia | done | done |].
  exists idx, s'.
  destruct (sample_without_duplicates_Return _ _ _ _ _ _
              (drawn_from_nil _) Hloop) as [Hidx Hlen].
  pose proof (read_only_sample_without_duplicates loads self fuel n [] s)
    as Hro. rewrite Hloop in Hro.
  rewrite sample_unique_sufficient by done. unfold bind. rewrite Hloop.
  unfold dict_values. by rewrite length_fmap.
Qed.

(** ** [sample], branch with duplicates allowed *)

Lemma sample_duplicates_unfold fuel n s :
  allow_duplicates_in_batch_sampling self = true →
  sample loads self fuel n s =
    (idx <- sample_with_duplicates loads self fuel n [] ;;
     ret (dict_values idx)) s.
Proof. intros Hdup. unfold sample. by rewrite Hdup. Qed.

Lemma sample_duplicates_partial fuel n s batch s' :
  allow_duplicates_in_batch_sampling self = true →
  sample loads self fuel n s = Return batch s' →
  ∃ idx, batch = dict_values idx ∧
         drawn_from loads (select d s) idx ∧
         Z.of_nat (List.length batch) = n.
Proof.
  intros Hdup. rewrite sample_duplicates_unfold by done. unfold bind.
  destruct (sample_with_duplicates loads self fuel n [] s)
    as [idx s1|e s1|s1] eqn:Hloop; [|done..].
  intros [= <- <-]. exists idx.
  destruct (sample_with_duplicates_Return _ _ _ _ _ _
              (drawn_from_nil _) Hloop) as [Hidx Hlen].
  unfold dict_values. by rewrite length_fmap.
Qed.

Lemma sample_duplicates_total m fuel n s :
  allow_duplicates_in_batch_sampling self = true →
  select d s ≠ ∅ → decodable loads (select d s) →
  0 ≤ n →
  n ≤ Z.of_nat (size (list_to_set (C:=gset (option string))
                        (upcoming d s m))) →
  (m ≤ fuel)%nat →
  ∃ idx s', sample loads self fuel n s = Return (dict_values idx) s' ∧
            dbs s' = dbs s ∧
            drawn_from loads (select d s) idx ∧
            Z.of_nat (List.length (dict_values idx)) = n.
Proof.
  intros Hdup Hne Hdec Hn0 Hfair Hfuel.
  destruct (sample_with_duplicates_total m fuel n [] s)
    as (idx & s' & Hloop); [done | done | apply drawn_from_nil
                            | simpl; lia | done | done |].
  exists idx, s'.
  destruct (sample_with_duplicates_Return _ _ _ _ _ _
              (drawn_from_nil _) Hloop) as [Hidx Hlen].
  pose proof (read_only_sample_with_duplicates loads self fuel n [] s)
    as Hro. rewrite Hloop in Hro.
  rewrite sample_duplicates_unfold by done. unfold bind. rewrite Hloop.
  unfold dict_values. by rewrite length_fmap.
Qed.

(** A request for more transitions than the database has keys keeps the
    loop running for ever. *)
Lemma sample_duplicates_starves fuel n s :
  allow_duplicates_in_batch_sampling self = true →
  select d s ≠ ∅ → decodable loads (select d s) →
  Z.of_nat (size (select d s)) < n →
  ∃ s', sample loads self fuel n s = Spin s' ∧ dbs s' = dbs s.
Proof.
  intros Hdup Hne Hdec Hlt.
  rewrite sample_duplicates_unfold by done. unfold bind.
  pose proof (read_only_sample_with_duplicates loads self fuel n [] s) as Hro.
  destruct (sample_with_duplicates loads self fuel n [] s)
    as [idx s1|e s1|s1] eqn:Hloop.
  - destruct (sample_with_duplicates_Return _ _ _ _ _ _
                (drawn_from_nil _) Hloop) as [Hidx Hlen].
    apply drawn_from_length in Hidx. lia.
  - by apply sample_with_duplicates_no_raise in Hloop.
  - by exists s1.
Qed.

End Sampling.

Lemma demo_loads_decodable m : decodable demo_loads m.
Proof. intros k b _. by exists b. Qed.

(** C1 (the code departs from the claim on an empty buffer): with
    duplicates disallowed, [sample] on a buffer that holds no transition
    raises neither the ValueError for insufficient data (when [size] is
    positive) nor returns the empty batch (when [size] is 0): the count it
    starts with raises [KeyError], for every [size]. *)
Theorem sample_unique_on_empty_buffer_raises_KeyError {Transition : Type}
    (loads : string → option Transition)
    (self : DistributedExperienceReplay) (fuel : nat) (n : Z) (s : Redis) :
  allow_duplicates_in_batch_sampling self = false →
  select (db self) s = ∅ →
  sample loads self fuel n s = Raise (KeyError (db self)) s.
Proof. apply sample_unique_empty. Qed.

Lemma sample_unique_on_empty_buffer_raises_KeyError_witness :
  sample demo_loads (demo_buffer 3 false) 10 1 fresh_server
    = Raise (KeyError 0) fresh_server ∧
  sample demo_loads (demo_buffer 3 false) 10 0 fresh_server
    = Raise (KeyError 0) fresh_server.
Proof.
  split.
  - apply (sample_unique_on_empty_buffer_raises_KeyError
             demo_loads (demo_buffer 3 false) 10 1 fresh_server);
      reflexivity.
  - apply (sample_unique_on_empty_buffer_raises_KeyError
             demo_loads (demo_buffer 3 false) 10 0 fresh_server);
      reflexivity.
Defined.

(** On a buffer that holds a transition the claim of C1 holds: the
    ValueError exactly when the count is below [size], and otherwise a
    batch of [size] transitions fetched under [size] different live keys,
    as soon as [randomkey] has named that many. *)
Lemma sample_unique_on_nonempty_buffer {Transition : Type}
    (loads : string → option Transition)
    (self : DistributedExperienceReplay) (fuel : nat) (n : Z) (s : Redis) :
  allow_duplicates_in_batch_sampling self = false →
  select (db self) s ≠ ∅ →
  let count := Z.of_nat (size (select (db self) s)) in
  ((∃ have s', sample loads self fuel n s
                 = Raise (ValueError (NotEnoughTransitions have)) s')
   ↔ count < n) ∧
  (count < n →
   sample loads self fuel n s
     = Raise (ValueError (NotEnoughTransitions count)) s) ∧
  (n ≤ count →
   ∀ batch s', sample loads self fuel n s = Return batch s' →
     ∃ idx, batch = dict_values idx ∧
            drawn_from loads (select (db self) s) idx ∧
            Z.of_nat (List.length batch) = n) ∧
  (0 ≤ n ≤ count → decodable loads (select (db self) s) →
   ∀ m, n ≤ Z.of_nat (size (list_to_set (C:=gset (option string))
                              (upcoming (db self) s m))) →
        (m ≤ fuel)%nat →
        ∃ idx s', sample loads self fuel n s = Return (dict_values idx) s' ∧
                  dbs s' = dbs s ∧
                  drawn_from loads (select (db self) s) idx ∧
                  Z.of_nat (List.length (dict_values idx)) = n).
Proof.
  intros Hdup Hne count. split_and!.
  - split.
    + intros (have & s' & Hraise).
      destruct (decide (count < n)) as [|Hge]; [done|].
      destruct (sample_unique_partial loads self fuel n s) as [Hexn _];
        [done | done | unfold count in Hge; lia |].
      by destruct (Hexn _ _ Hraise).
    + intros Hlt. eexists _, _. by apply sample_unique_insufficient.
  - by apply sample_unique_insufficient.
  - intros Hle. by apply sample_unique_partial.
  - intros Hn Hdec m Hfair Hfuel. by eapply sample_unique_total.
Qed.

(** C3 (the code departs from the claim): with duplicates allowed, on a
    buffer that is not empty but holds fewer than [size] transitions,
    [sample] does not return: the loop collects keys, not draws, and with
    fewer than [size] keys in the database it keeps drawing whatever the
    fuel. *)
Theorem sample_with_duplicates_never_returns_beyond_count {Transition : Type}
    (loads : string → option Transition)
    (self : DistributedExperienceReplay) (n : Z) (s : Redis) :
  allow_duplicates_in_batch_sampling self = true →
  select (db self) s ≠ ∅ →
  decodable loads (select (db self) s) →
  Z.of_nat (size (select (db self) s)) < n →
  ∀ fuel, ∃ s', sample loads self fuel n s = Spin s' ∧ dbs s' = dbs s.
Proof. intros Hdup Hne Hdec Hlt fuel. by apply sample_duplicates_starves. Qed.

Lemma sample_with_duplicates_never_returns_beyond_count_witness :
  let s := server_with {[ 0%nat := {[ "a" := "x" ]} ]}%string in
  size (select 0 s) = 1%nat ∧
  ∃ s', sample demo_loads (demo_buffer 3 true) 1000 2 s = Spin s' ∧
        dbs s' = dbs s.
Proof.
  intros s. split; [reflexivity|].
  apply (sample_with_duplicates_never_returns_beyond_count
           demo_loads (demo_buffer 3 true) 2 s).
  - reflexivity.
  - apply map_size_non_empty_iff. vm_compute. lia.
  - apply demo_loads_decodable.
  - vm_compute. reflexivity.
Defined.

(** When the database has at least [size] keys the branch does what the
    claim of C3 says: it returns [size] transitions, fetched under [size]
    different keys, once [randomkey] has named that many. *)
Lemma sample_with_duplicates_within_count {Transition : Type}
    (loads : string → option Transition)
    (self : DistributedExperienceReplay) (fuel m : nat) (n : Z) (s : Redis) :
  allow_duplicates_in_batch_sampling self = true →
  select (db self) s ≠ ∅ →
  decodable loads (select (db self) s) →
  0 ≤ n →
  n ≤ Z.of_nat (size (list_to_set (C:=gset (option string))
                        (upcoming (db self) s m))) →
  (m ≤ fuel)%nat →
  ∃ idx s', sample loads self fuel n s = Return (dict_values idx) s' ∧
            dbs s' = dbs s ∧
            drawn_from loads (select (db self) s) idx ∧
            Z.of_nat (List.length (dict_values idx)) = n.
Proof. apply sample_duplicates_total. Qed.

(** The hypotheses of the two lemmas on returning batches can be met. *)
Example sample_two_of_three_returns :
  let s := server_with
             {[ 0%nat := {[ "a" := "x"; "b" := "y"; "c" := "z" ]} ]}%string in
  (∃ idx s', sample demo_loads (demo_buffer 3 false) 2 2 s
               = Return (dict_values idx) s' ∧
             dbs s' = dbs s ∧
             drawn_from demo_loads (select 0 s) idx ∧
             Z.of_nat (List.length (dict_values idx)) = 2) ∧
  (∃ idx s', sample demo_loads (demo_buffer 3 true) 2 2 s
               = Return (dict_values idx) s' ∧
             dbs s' = dbs s ∧
             drawn_from demo_loads (select 0 s) idx ∧
             Z.of_nat (List.length (dict_values idx)) = 2).
Proof.
  intros s.
  assert (Hne : select 0 s ≠ ∅).
  { apply map_size_non_empty_iff. vm_compute. lia. }
  split.
  - apply (sample_unique_total demo_loads (demo_buffer 3 false) 2 2 2 s);
      [reflexivity | exact Hne | apply demo_loads_decodable
       | vm_compute; split; discriminate | vm_compute; discriminate | lia].
  - apply (sample_duplicates_total demo_loads (demo_buffer 3 true) 2 2 2 s);
      [reflexivity | exact Hne | apply demo_loads_decodable
       | lia | vm_compute; discriminate | lia].
Qed.

Example sample_two_of_three :
  let s := server_with
             {[ 0%nat := {[ "a" := "x"; "b" := "y"; "c" := "z" ]} ]}%string in
  returned (sample demo_loads (demo_buffer 3 false) 2 2 s)
    = Some ["z"; "x"]%string ∧
  returned (sample demo_loads (demo_buffer 3 true) 2 2 s)
    = Some ["z"; "x"]%string.
Proof. vm_compute. done. Qed.

(** * Further properties of the methods *)

Section EvictionMore.
Variable self : DistributedExperienceReplay.
Local Abbreviation d := (db self).

(** One turn of the loop, for the key the server picks. *)
Lemma evict_loop_step_at fuel cap s k :
  cap ≠ 0 → Z.of_nat (size (select d s)) > cap → next_key d s = Some k →
  evict_loop self (S fuel) cap s =
  evict_loop self fuel cap (update_db d (base.delete k) (tick s)).
Proof.
  intros Hsz Hgt Hk.
  pose proof (next_key_Some d s k Hk) as Hlive.
  assert (Hne : select d s ≠ ∅).
  { intros He. rewrite He, lookup_empty in Hlive. by destruct Hlive. }
  rewrite evict_loop_unfold, decide_True by done.
  unfold bind at 1. rewrite num_transitions_nonempty by done.
  rewrite decide_True by lia.
  unfold bind at 1, redis_connection.randomkey. rewrite Hk.
  unfold evict_after_draw, bind at 1.
  by rewrite delete_live by (by rewrite select_tick).
Qed.

(** The only exception the loop lets out is the [KeyError] of the count,
    and it comes with an empty database. *)
Lemma evict_loop_Raise fuel cap s e s' :
  evict_loop self fuel cap s = Raise e s' →
  e = KeyError d ∧ select d s' = ∅.
Proof.
  revert s. induction fuel as [|fuel IH]; intros s;
    (destruct (decide (cap = 0)) as [->|Hsz];
       [by rewrite evict_loop_unbounded|]);
    (destruct (decide (select d s = ∅)) as [He|Hne];
       [rewrite evict_loop_empty by done; by intros [= <- <-]|]);
    (destruct (decide (Z.of_nat (size (select d s)) ≤ cap)) as [Hle|Hgt];
       [by rewrite evict_loop_within|]).
  - by rewrite evict_loop_out_of_fuel by (done || lia).
  - destruct (evict_loop_step self fuel cap s) as (k & Hk & ->);
      [done | done | lia |].
    apply IH.
Qed.

(** However the loop ends, the other databases are as before. *)
Lemma evict_loop_other_dbs fuel cap s d' :
  d' ≠ d → select d' (final_state (evict_loop self fuel cap s)) = select d' s.
Proof.
  intros Hd'. revert s. induction fuel as [|fuel IH]; intros s;
    (destruct (decide (cap = 0)) as [->|Hsz];
       [by rewrite evict_loop_unbounded|]);
    (destruct (decide (select d s = ∅)) as [He|Hne];
       [by rewrite evict_loop_empty|]);
    (destruct (decide (Z.of_nat (size (select d s)) ≤ cap)) as [Hle|Hgt];
       [by rewrite evict_loop_within|]).
  - by rewrite evict_loop_out_of_fuel by (done || lia).
  - destruct (evict_loop_step self fuel cap s) as (k & Hk & ->);
      [done | done | lia |].
    rewrite IH. by rewrite select_update_db_ne.
Qed.

(** With a negative bound the loop deletes every key and then fails. *)
Lemma evict_loop_negative fuel cap s :
  cap < 0 → (size (select d s) ≤ fuel)%nat →
  ∃ s', evict_loop self fuel cap s = Raise (KeyError d) s' ∧
        select d s' = ∅.
Proof.
  intros Hcap. revert s. induction fuel as [|fuel IH]; intros s Hfuel.
  - exists s. assert (He : select d s = ∅).
    { apply map_size_empty_iff. lia. }
    by rewrite evict_loop_empty by (done || lia).
  - destruct (decide (select d s = ∅)) as [He|Hne].
    { exists s. by rewrite evict_loop_empty by (done || lia). }
    destruct (evict_loop_step self fuel cap s) as (k & Hk & ->);
      [lia | done | lia |].
    apply IH. rewrite select_update_db, select_tick.
    rewrite map_size_delete_Some by done. lia.
Qed.

Lemma enforce_max_length_other_dbs fuel s d' :
  d' ≠ d →
  select d' (final_state (_enforce_max_length self fuel s)) = select d' s.
Proof.
  intros Hd'. unfold _enforce_max_length.
  destruct (max_size self) as [g cap]. case_decide; [|done].
  by apply evict_loop_other_dbs.
Qed.

Lemma enforce_max_length_Raise fuel s e s' :
  (max_size self).1 = Transitions →
  _enforce_max_length self fuel s = Raise e s' →
  e = KeyError d ∧ select d s' = ∅.
Proof.
  unfold _enforce_max_length. destruct (max_size self) as [g cap]; simpl.
  intros ->. rewrite decide_True by done. apply evict_loop_Raise.
Qed.

End EvictionMore.

(** X1: [__init__] raises the ValueError for any granularity other than
    transitions and otherwise builds the buffer as given, without touching
    the server; for a buffer it built, [_enforce_max_length] never raises
    the ValueError of its [else] branch: the only exception it lets out
    is the [KeyError] of the count, with the database empty. *)
Theorem constructed_buffer_enforces_in_transitions
    (ms : MemoryGranularity * Z) (dup : bool) (n : nat) (s0 : Redis) :
  (ms.1 ≠ Transitions →
   init ms dup n s0 = Raise (ValueError OnlyTransitions) s0) ∧
  (ms.1 = Transitions →
   ∃ self, init ms dup n s0 = Return self s0 ∧
           max_size self = ms ∧
           allow_duplicates_in_batch_sampling self = dup ∧
           db self = n ∧
           ∀ fuel s e s',
             _enforce_max_length self fuel s = Raise e s' →
             e = KeyError n ∧ select n s' = ∅).
Proof.
  split; intros Hg; unfold init.
  - by rewrite decide_True.
  - rewrite decide_False by (by intros []). eexists. split; [done|].
    split_and!; [done..|]. intros fuel s e s' Hraise.
    by apply enforce_max_length_Raise in Hraise.
Qed.

Lemma constructed_buffer_enforces_in_transitions_witness :
  let p := DistributedExperienceReplayParameters.init in
  init (DistributedExperienceReplayParameters.max_size p)
       (DistributedExperienceReplayParameters.allow_duplicates_in_batch_sampling p)
       0 fresh_server
    = Return (demo_buffer 1000000 true) fresh_server ∧
  init (Episodes, 10) true 0 fresh_server
    = Raise (ValueError OnlyTransitions) fresh_server.
Proof.
  intros p. split.
  - destruct (constructed_buffer_enforces_in_transitions
                (Transitions, 1000000) true 0 fresh_server) as [_ H].
    destruct (H eq_refl) as (self & Hinit & _). reflexivity.
  - apply (constructed_buffer_enforces_in_transitions
             (Episodes, 10) true 0 fresh_server).
    discriminate.
Defined.

(** X2: on a buffer that holds at least one transition,
    [num_transitions] and [length] return the number of keys of the
    buffer's own database and leave the server as it is; keys of other
    databases and the random numbers of the server do not count. *)
Theorem num_transitions_counts_own_database
    (self : DistributedExperienceReplay) (s s2 : Redis) :
  select (db self) s ≠ ∅ →
  select (db self) s2 = select (db self) s →
  num_transitions self s2
    = Return (Z.of_nat (size (select (db self) s))) s2 ∧
  length self s2 = Return (Z.of_nat (size (select (db self) s))) s2.
Proof.
  intros Hne Hsame. unfold length. rewrite <- Hsame in *.
  split; by apply num_transitions_nonempty.
Qed.

Lemma num_transitions_counts_own_database_witness :
  let s := server_with {[ 0%nat := {[ "a" := "x"; "b" := "y" ]} ]}%string in
  let s2 := server_with {[ 0%nat := {[ "a" := "x"; "b" := "y" ]};
                           1%nat := {[ "c" := "z" ]} ]}%string in
  num_transitions (demo_buffer 3 true) s2 = Return 2 s2 ∧
  length (demo_buffer 3 true) s2 = Return 2 s2.
Proof.
  intros s s2.
  apply (num_transitions_counts_own_database (demo_buffer 3 true) s s2).
  - apply map_size_non_empty_iff. vm_compute. lia.
  - reflexivity.
Defined.

Section StoreMore.
Context {Transition : Type}.
Variable dumps : Transition → string.
Variable self : DistributedExperienceReplay.
Local Abbreviation d := (db self).

Lemma store_no_eviction fuel cap u t s :
  max_size self = (Transitions, cap) →
  cap = 0 ∨ Z.of_nat (size (<[u := dumps t]> (select d s))) ≤ cap →
  store dumps self fuel u t s =
    Return tt (update_db d (insert u (dumps t)) s).
Proof.
  intros Hmax Hroom.
  rewrite store_unfold, (enforce_max_length_transitions _ _ cap) by done.
  destruct Hroom as [->|Hle]; [apply evict_loop_unbounded|].
  apply evict_loop_within; rewrite select_update_db; [|done].
  apply insert_non_empty.
Qed.

Lemma store_other_dbs fuel u t s d' :
  d' ≠ d → select d' (final_state (store dumps self fuel u t s)) = select d' s.
Proof.
  intros Hd'. rewrite store_unfold, enforce_max_length_other_dbs by done.
  by rewrite select_update_db_ne.
Qed.

End StoreMore.

(** X3: when the capacity is 0 (unbounded), or the database still has
    room after the write, [store] evicts nothing: whatever the fuel, it
    returns with the database equal to the old one with the new value
    under the identifier (an identifier already present is overwritten),
    and the value can be read back as stored bytes. *)
Theorem store_with_room_only_writes {Transition : Type}
    (dumps : Transition → string) (self : DistributedExperienceReplay)
    (fuel : nat) (cap : Z) (u : string) (t : Transition) (s : Redis) :
  max_size self = (Transitions, cap) →
  cap = 0 ∨ Z.of_nat (size (<[u := dumps t]> (select (db self) s))) ≤ cap →
  ∃ s', store dumps self fuel u t s = Return tt s' ∧
        select (db self) s' = <[u := dumps t]> (select (db self) s) ∧
        redis_connection.get (db self) (Some u) s' = Return (Some (dumps t)) s'.
Proof.
  intros Hmax Hroom. eexists. split; [by eapply store_no_eviction|].
  rewrite select_update_db. split; [done|].
  unfold redis_connection.get; simpl.
  by rewrite select_update_db, lookup_insert_eq.
Qed.

Lemma store_with_room_only_writes_witness :
  let s := server_with {[ 0%nat := {[ "a" := "x" ]} ]}%string in
  ∃ s', store demo_dumps (demo_buffer 0 true) 0 "a" "new" s = Return tt s' ∧
        select 0 s' = {[ "a" := "new" ]}%string.
Proof.
  intros s.
  destruct (store_with_room_only_writes demo_dumps (demo_buffer 0 true)
              0 0 "a" "new"%string s) as (s' & Hst & Hdb & _).
  - reflexivity.
  - by left.
  - exists s'. split; [exact Hst|]. etrans; [exact Hdb|]. reflexivity.
Defined.

(** X4: with a positive capacity [store] always completes, given fuel for
    the keys in excess, and it evicts exactly the excess: the count
    afterwards is the smaller of the capacity and the count after the
    write, every key that is left holds the value it held after the
    write, and [num_transitions] reports that count. *)
Theorem store_evicts_exactly_the_excess {Transition : Type}
    (dumps : Transition → string) (self : DistributedExperienceReplay)
    (fuel : nat) (cap : Z) (u : string) (t : Transition) (s : Redis) :
  max_size self = (Transitions, cap) → 0 < cap →
  (size (<[u := dumps t]> (select (db self) s)) - Z.to_nat cap ≤ fuel)%nat →
  ∃ s', store dumps self fuel u t s = Return tt s' ∧
        size (select (db self) s') =
          (size (<[u := dumps t]> (select (db self) s)) `min` Z.to_nat cap)%nat ∧
        select (db self) s' ⊆ <[u := dumps t]> (select (db self) s) ∧
        num_transitions self s' =
          Return (Z.of_nat (size (select (db self) s'))) s'.
Proof.
  intros Hmax Hcap Hfuel.
  destruct (store_total dumps self fuel cap u t s) as (s' & Hst & Hsize);
    [done | lia | by right |].
  rewrite decide_False in Hsize by lia.
  destruct (store_Return _ _ _ _ _ _ _ Hst) as (Hsub & _).
  exists s'. split_and!; [done..|].
  apply num_transitions_nonempty, map_size_non_empty_iff.
  rewrite Hsize.
  pose proof (insert_non_empty (select (db self) s) u (dumps t)) as Hne.
  apply map_size_non_empty_iff in Hne. lia.
Qed.

Lemma store_evicts_exactly_the_excess_witness :
  let s := server_with
             {[ 0%nat := {[ "a" := "x"; "b" := "y"; "c" := "z" ]} ]}%string in
  ∃ s', store demo_dumps (demo_buffer 2 true) 2 "u" "new" s = Return tt s' ∧
        size (select 0 s') = 2%nat.
Proof.
  intros s.
  destruct (store_evicts_exactly_the_excess demo_dumps (demo_buffer 2 true)
              2 2 "u" "new"%string s) as (s' & Hst & Hsize & _).
  - reflexivity.
  - lia.
  - vm_compute. lia.
  - exists s'. split; [exact Hst|]. etrans; [exact Hsize|]. reflexivity.
Defined.

(** X5: a negative capacity is not rejected anywhere: [store] then
    deletes every key of the buffer, the new one included, and ends with
    the [KeyError] of the count on the emptied database. *)
Theorem store_with_negative_capacity_empties_the_buffer {Transition : Type}
    (dumps : Transition → string) (self : DistributedExperienceReplay)
    (fuel : nat) (cap : Z) (u : string) (t : Transition) (s : Redis) :
  max_size self = (Transitions, cap) → cap < 0 →
  (size (<[u := dumps t]> (select (db self) s)) ≤ fuel)%nat →
  ∃ s', store dumps self fuel u t s = Raise (KeyError (db self)) s' ∧
        select (db self) s' = ∅.
Proof.
  intros Hmax Hcap Hfuel.
  rewrite store_unfold, (enforce_max_length_transitions _ _ cap) by done.
  apply evict_loop_negative; [done|]. by rewrite select_update_db.
Qed.

Lemma store_with_negative_capacity_empties_the_buffer_witness :
  let s := server_with {[ 0%nat := {[ "a" := "x"; "b" := "y" ]} ]}%string in
  ∃ s', store demo_dumps (demo_buffer (-1) true) 3 "u" "new" s
          = Raise (KeyError 0) s' ∧
        select 0 s' = ∅.
Proof.
  intros s.
  apply (store_with_negative_capacity_empties_the_buffer
           demo_dumps (demo_buffer (-1) true) 3 (-1) "u" "new"%string s).
  - reflexivity.
  - lia.
  - vm_compute. lia.
Defined.

(** X6: [store] works on the database of its buffer only: however the
    call ends, every other database of the server holds what it held
    before, so the count of a buffer on another database is not changed
    by it. *)
Theorem store_leaves_other_databases {Transition : Type}
    (dumps : Transition → string)
    (self other : DistributedExperienceReplay)
    (fuel : nat) (u : string) (t : Transition) (s : Redis) :
  db other ≠ db self →
  let s' := final_state (store dumps self fuel u t s) in
  select (db other) s' = select (db other) s ∧
  returned (num_transitions other s') = returned (num_transitions other s).
Proof.
  intros Hd s'.
  assert (Hsame : select (db other) s' = select (db other) s).
  { by apply store_other_dbs. }
  split; [done|].
  destruct (decide (select (db other) s = ∅)) as [He|Hne].
  - rewrite !num_transitions_empty_db by congruence. done.
  - rewrite !num_transitions_nonempty by congruence. simpl. by rewrite Hsame.
Qed.

Lemma store_leaves_other_databases_witness :
  let s := server_with {[ 0%nat := {[ "a" := "x"; "b" := "y" ]};
                          1%nat := {[ "c" := "z" ]} ]}%string in
  let other := {| max_size := (Transitions, 5);
                  allow_duplicates_in_batch_sampling := true;
                  db := 1 |} in
  let s' := final_state (store demo_dumps (demo_buffer 1 true) 5 "u" "new" s) in
  select 1 s' = select 1 s ∧
  returned (num_transitions other s') = returned (num_transitions other s).
Proof.
  intros s other s'.
  apply (store_leaves_other_databases demo_dumps (demo_buffer 1 true) other
           5 "u" "new"%string s).
  discriminate.
Defined.

(** X7: eviction does not spare the transition that was just stored.  On
    a buffer that is full, for some choice of the server's random numbers
    [store] returns with the database exactly as it was before the call:
    the new transition is the one that was evicted. *)
Theorem store_may_evict_what_it_stored {Transition : Type}
    (dumps : Transition → string) (self : DistributedExperienceReplay)
    (cap : Z) (u : string) (t : Transition) (s : Redis) :
  max_size self = (Transitions, cap) → 0 < cap →
  Z.of_nat (size (select (db self) s)) = cap →
  select (db self) s !! u = None →
  ∃ e s', store dumps self 1 u t (reseed e s) = Return tt s' ∧
          select (db self) s' = select (db self) s.
Proof.
  intros Hmax Hcap Hfull Hfresh.
  set (s1 := update_db (db self) (insert u (dumps t)) s).
  assert (Hin : u ∈ live_keys (db self) s1).
  { apply elem_of_live_keys. unfold s1.
    rewrite select_update_db, lookup_insert_eq. by eexists. }
  apply list_elem_of_lookup_1 in Hin as [i Hi].
  pose proof (lookup_lt_Some _ _ _ Hi) as Hlt.
  exists (fun _ => i).
  set (s2 := update_db (db self) (insert u (dumps t)) (reseed (fun _ => i) s)).
  assert (Hsel : select (db self) s2 = <[u := dumps t]> (select (db self) s)).
  { unfold s2. by rewrite select_update_db. }
  assert (Hkey : next_key (db self) s2 = Some u).
  { unfold next_key. change (live_keys (db self) s2)
      with (live_keys (db self) s1). simpl.
    by rewrite Nat.mod_small. }
  exists (update_db (db self) (base.delete u) (tick s2)).
  assert (Hback : select (db self)
                    (update_db (db self) (base.delete u) (tick s2))
                  = select (db self) s).
  { rewrite select_update_db, select_tick, Hsel.
    rewrite delete_insert_eq. by apply delete_id. }
  split; [|done].
  rewrite store_unfold, (enforce_max_length_transitions _ _ cap) by done.
  fold s2. rewrite (evict_loop_step_at self 0 cap s2 u); [|lia| |done].
  - apply evict_loop_within; rewrite Hback; [|lia].
    apply map_size_non_empty_iff. lia.
  - rewrite Hsel, map_size_insert_None by done. lia.
Qed.

Lemma store_may_evict_what_it_stored_witness :
  let s := server_with {[ 0%nat := {[ "a" := "x"; "b" := "y" ]} ]}%string in
  ∃ e s', store demo_dumps (demo_buffer 2 true) 1 "u" "new" (reseed e s)
            = Return tt s' ∧
          select 0 s' = select 0 s.
Proof.
  intros s.
  apply (store_may_evict_what_it_stored demo_dumps (demo_buffer 2 true)
           2 "u" "new"%string s).
  - reflexivity.
  - lia.
  - vm_compute. reflexivity.
  - reflexivity.
Defined.

(** X8: [remove] (and [remove_transition]) always returns; afterwards the
    database of the buffer is the old one without the key, every other
    key and every other database being as before, and removing the same
    key again changes nothing. *)
Theorem remove_deletes_exactly_the_key
    (self : DistributedExperienceReplay) (k : string) (s : Redis) :
  ∃ s', remove self k s = Return tt s' ∧
        remove_transition self k s = Return tt s' ∧
        select (db self) s' = base.delete k (select (db self) s) ∧
        (∀ d', d' ≠ db self → select d' s' = select d' s) ∧
        remove self k s' = Return tt s'.
Proof.
  unfold remove.
  destruct (select (db self) s !! k) as [v|] eqn:Hk.
  - exists (update_db (db self) (base.delete k) s).
    assert (Hrm : remove_transition self k s
                  = Return tt (update_db (db self) (base.delete k) s)).
    { unfold remove_transition, bind. by rewrite delete_live by eauto. }
    split_and!; [done | done | by rewrite select_update_db | |].
    + intros d' Hd'. by rewrite select_update_db_ne.
    + apply remove_transition_absent.
      rewrite select_update_db. apply lookup_delete_eq.
  - exists s. rewrite remove_transition_absent by done.
    split_and!; [done | done | by rewrite delete_id | done | done].
Qed.

Section Observers.
Context {np : NumPy} {Transition : Type}.
Variable reward : Transition → float64.
Variable loads : string → option Transition.
Variable self : DistributedExperienceReplay.

Lemma observer_ret {A} (a : A) : observer (ret a).
Proof. by intros s. Qed.

Lemma observer_bind {A B} (m : M A) (k : A → M B) :
  observer m → (∀ a, observer (k a)) → observer (bind m k).
Proof.
  intros Hm Hk s. unfold bind. specialize (Hm s).
  destruct (m s) as [a s'|e s'|s']; simpl in *; subst; [|done..].
  apply Hk.
Qed.

Lemma observer_get d name : observer (redis_connection.get d name).
Proof. by intros s. Qed.

Lemma observer_keys d : observer (redis_connection.keys d).
Proof. by intros s. Qed.

Lemma observer_pickle_loads x : observer (pickle_loads loads x).
Proof.
  intros s. unfold pickle_loads.
  destruct x as [b|]; [|done]. by destruct (loads b).
Qed.

Lemma observer_for_each {A B} (f : A → M B) (xs : list A) :
  (∀ x, observer (f x)) → observer (for_each f xs).
Proof.
  intros Hf. induction xs as [|x xs IH]; simpl; [apply observer_ret|].
  apply observer_bind; [done|intros y].
  apply observer_bind; [done|intros ys]. apply observer_ret.
Qed.

Lemma observer_get_transition k : observer (get_transition loads self k).
Proof.
  apply observer_bind; [apply observer_get|apply observer_pickle_loads].
Qed.

Lemma observer_mean_reward : observer (mean_reward reward loads self).
Proof.
  unfold mean_reward.
  apply observer_bind; [apply observer_keys|intros ks].
  apply observer_bind; [|intros rs; apply observer_ret].
  apply observer_for_each. intros key.
  apply observer_bind; [apply observer_get|intros blob].
  apply observer_bind; [apply observer_pickle_loads|intros t].
  apply observer_ret.
Qed.

End Observers.

(** X9: the methods that only look, [get_transition], [get],
    [mean_reward], [num_transitions] and [length], leave the whole server
    as it was, keys, values and random numbers, whether they return or
    raise. *)
Theorem observers_leave_the_server_unchanged {np : NumPy} {Transition : Type}
    (reward : Transition → float64) (loads : string → option Transition)
    (self : DistributedExperienceReplay) (k : string) (s : Redis) :
  final_state (get_transition loads self k s) = s ∧
  final_state (get loads self k s) = s ∧
  final_state (mean_reward reward loads self s) = s ∧
  final_state (num_transitions self s) = s ∧
  final_state (length self s) = s.
Proof.
  unfold get, length. split_and!.
  - apply observer_get_transition.
  - apply observer_get_transition.
  - apply observer_mean_reward.
  - apply num_transitions_same_state.
  - apply num_transitions_same_state.
Qed.

Section SamplingMore.
Context {Transition : Type}.
Variable loads : string → option Transition.
Variable self : DistributedExperienceReplay.
Local Abbreviation d := (db self).

(** A batch that [sample] returns, under either policy, is the values of
    a dictionary drawn from the database, and has the size asked for. *)
Lemma sample_Return_drawn fuel n s batch s' :
  sample loads self fuel n s = Return batch s' →
  ∃ idx, batch = dict_values idx ∧
         drawn_from loads (select d s) idx ∧
         Z.of_nat (List.length batch) = n.
Proof.
  intros Hret.
  destruct (allow_duplicates_in_batch_sampling self) eqn:Hdup.
  { by eapply sample_duplicates_partial. }
  destruct (decide (select d s = ∅)) as [He|Hne].
  { by rewrite sample_unique_empty in Hret. }
  destruct (decide (Z.of_nat (size (select d s)) < n)) as [Hlt|Hge].
  { by rewrite sample_unique_insufficient in Hret. }
  destruct (sample_unique_partial loads self fuel n s) as [_ H];
    [done | done | lia |].
  by eapply H.
Qed.

Lemma read_only_sample fuel n : read_only (sample loads self fuel n).
Proof.
  unfold sample. apply read_only_bind; [|intros idx; apply read_only_ret].
  destruct (allow_duplicates_in_batch_sampling self).
  - apply read_only_sample_with_duplicates.
  - apply read_only_bind; [apply read_only_num_transitions|intros m].
    case_decide.
    + apply read_only_sample_without_duplicates.
    + apply read_only_bind; [apply read_only_num_transitions|intros have].
      apply read_only_raise.
Qed.

Lemma sample_never_returns_negative fuel n s :
  n < 0 → select d s ≠ ∅ → decodable loads (select d s) →
  ∃ s', sample loads self fuel n s = Spin s' ∧ dbs s' = dbs s.
Proof.
  intros Hn Hne Hdec.
  destruct (sample loads self fuel n s) as [batch s'|e s'|s'] eqn:Hs.
  - destruct (sample_Return_drawn _ _ _ _ _ Hs) as (idx & _ & _ & Hlen). lia.
  - exfalso. revert Hs.
    destruct (allow_duplicates_in_batch_sampling self) eqn:Hdup.
    + rewrite sample_duplicates_unfold by done. unfold bind.
      destruct (sample_with_duplicates loads self fuel n [] s) eqn:Hloop;
        try done.
      by apply sample_with_duplicates_no_raise in Hloop.
    + rewrite sample_unique_sufficient by (done || lia). unfold bind.
      destruct (sample_without_duplicates loads self fuel n [] s) eqn:Hloop;
        try done.
      by apply sample_without_duplicates_no_raise in Hloop.
  - exists s'. split; [done|].
    pose proof (read_only_sample fuel n s) as Hro. by rewrite Hs in Hro.
Qed.

(** A dictionary drawn from a database with as many entries as the
    database has keys has an entry for every key. *)
Lemma drawn_from_all m (idx : pydict Transition) k b :
  drawn_from loads m idx → List.length idx = size m →
  m !! k = Some b →
  ∃ t, loads b = Some t ∧ t ∈ dict_values idx.
Proof.
  intros [Hnd Hall] Hlen Hk.
  assert (Hsub : idx.*1 ⊆+ (fun kb => Some kb.1) <$> map_to_list m).
  { apply NoDup_submseteq; [done|].
    intros key [[key' t] [-> Hin]]%list_elem_of_fmap.
    destruct (Hall _ _ Hin) as (k' & b' & -> & Hk' & _).
    apply list_elem_of_fmap. exists (k', b'). split; [done|].
    by apply elem_of_map_to_list. }
  apply submseteq_length_Permutation in Hsub;
    [|by rewrite !length_fmap, length_map_to_list, Hlen].
  assert (Hin : Some k ∈ idx.*1).
  { rewrite Hsub. apply list_elem_of_fmap. exists (k, b).
    split; [done|]. by apply elem_of_map_to_list. }
  apply list_elem_of_fmap in Hin as [[key t] [Hkey Hin]]. simpl in Hkey.
  subst key. destruct (Hall _ _ Hin) as (k' & b' & [= <-] & Hk' & Hb').
  exists t. split; [congruence|].
  unfold dict_values. apply list_elem_of_fmap. by exists (Some k, t).
Qed.

End SamplingMore.

(** X10: with duplicates allowed, [sample] on an empty buffer returns the
    empty batch when the size asked for is 0 and raises [TypeError] for
    any other size: [randomkey()] answers [None], [get(None)] answers
    [None], and [pickle.loads(None)] raises. *)
Theorem sample_with_duplicates_on_empty_buffer {Transition : Type}
    (loads : string → option Transition)
    (self : DistributedExperienceReplay) (fuel : nat) (n : Z) (s : Redis) :
  allow_duplicates_in_batch_sampling self = true →
  select (db self) s = ∅ →
  sample loads self fuel 0 s = Return [] s ∧
  (n ≠ 0 → sample loads self (S fuel) n s = Raise TypeError (tick s)).
Proof.
  intros Hdup He. rewrite !sample_duplicates_unfold by done. unfold bind.
  rewrite !sample_with_duplicates_unfold. split.
  - by rewrite decide_False by (simpl; lia).
  - intros Hn. rewrite decide_True by (simpl; lia).
    rewrite next_key_empty by done. by rewrite He, lookup_empty.
Qed.

Lemma sample_with_duplicates_on_empty_buffer_witness :
  sample demo_loads (demo_buffer 3 true) 4 0 fresh_server
    = Return [] fresh_server ∧
  sample demo_loads (demo_buffer 3 true) 5 3 fresh_server
    = Raise TypeError (tick fresh_server).
Proof.
  destruct (sample_with_duplicates_on_empty_buffer
              demo_loads (demo_buffer 3 true) 4 3 fresh_server)
    as [Hzero Hother]; [reflexivity | reflexivity |].
  split; [exact Hzero|]. apply Hother. lia.
Defined.

(** X11: [sample] does not reject a negative size.  On a buffer that
    holds a transition (all values unpickling), under either policy, the
    loop condition [len(transition_idx) != size] never fails, so the call
    never returns; the store stays as it is meanwhile. *)
Theorem sample_with_negative_size_never_returns {Transition : Type}
    (loads : string → option Transition)
    (self : DistributedExperienceReplay) (n : Z) (s : Redis) :
  n < 0 →
  select (db self) s ≠ ∅ →
  decodable loads (select (db self) s) →
  ∀ fuel, ∃ s', sample loads self fuel n s = Spin s' ∧ dbs s' = dbs s.
Proof.
  intros Hn Hne Hdec fuel. by apply sample_never_returns_negative.
Qed.

Lemma sample_with_negative_size_never_returns_witness :
  let s := server_with {[ 0%nat := {[ "a" := "x"; "b" := "y" ]} ]}%string in
  (∃ s', sample demo_loads (demo_buffer 3 false) 50 (-1) s = Spin s' ∧
         dbs s' = dbs s) ∧
  (∃ s', sample demo_loads (demo_buffer 3 true) 50 (-1) s = Spin s' ∧
         dbs s' = dbs s).
Proof.
  intros s.
  assert (Hne : select 0 s ≠ ∅).
  { apply map_size_non_empty_iff. vm_compute. lia. }
  split.
  - apply (sample_with_negative_size_never_returns
             demo_loads (demo_buffer 3 false) (-1) s);
      [lia | exact Hne | apply demo_loads_decodable].
  - apply (sample_with_negative_size_never_returns
             demo_loads (demo_buffer 3 true) (-1) s);
      [lia | exact Hne | apply demo_loads_decodable].
Defined.

(** X12: whatever [sample] returns, under either policy, is a batch of
    exactly the size asked for, never larger than the number of stored
    transitions, and every transition in it is the unpickled value of a
    key the buffer holds. *)
Theorem sample_returns_only_stored_transitions {Transition : Type}
    (loads : string → option Transition)
    (self : DistributedExperienceReplay)
    (fuel : nat) (n : Z) (s s' : Redis) (batch : list Transition) :
  sample loads self fuel n s = Return batch s' →
  Z.of_nat (List.length batch) = n ∧
  n ≤ Z.of_nat (size (select (db self) s)) ∧
  ∀ t, t ∈ batch →
    ∃ k b, select (db self) s !! k = Some b ∧ loads b = Some t.
Proof.
  intros (idx & -> & Hidx & Hlen)%sample_Return_drawn.
  split; [done|]. split.
  - pose proof (drawn_from_length _ _ _ Hidx) as Hle.
    unfold dict_values in Hlen. rewrite length_fmap in Hlen. lia.
  - intros t [[key t'] [-> Hin]]%list_elem_of_fmap.
    destruct Hidx as [_ Hall].
    destruct (Hall _ _ Hin) as (k & b & _ & Hk & Hb). by exists k, b.
Qed.

Lemma sample_returns_only_stored_transitions_witness :
  let s := server_with
             {[ 0%nat := {[ "a" := "x"; "b" := "y"; "c" := "z" ]} ]}%string in
  let o := sample demo_loads (demo_buffer 3 false) 2 2 s in
  returned o = Some ["z"; "x"]%string ∧
  ∀ t, t ∈ ["z"; "x"]%string →
    ∃ k b, select 0 s !! k = Some b ∧ demo_loads b = Some t.
Proof.
  intros s o. split; [reflexivity|].
  apply (sample_returns_only_stored_transitions
           demo_loads (demo_buffer 3 false) 2 2 s (final_state o)
           ["z"; "x"]%string).
  reflexivity.
Defined.

(** X13: a batch as large as the buffer contains every stored transition:
    when [sample] returns for a size equal to the number of keys, under
    either policy, each value the buffer holds unpickles to a member of
    the batch. *)
Theorem sample_of_the_whole_buffer_misses_nothing {Transition : Type}
    (loads : string → option Transition)
    (self : DistributedExperienceReplay)
    (fuel : nat) (s s' : Redis) (batch : list Transition) :
  sample loads self fuel (Z.of_nat (size (select (db self) s))) s
    = Return batch s' →
  ∀ k b, select (db self) s !! k = Some b →
         ∃ t, loads b = Some t ∧ t ∈ batch.
Proof.
  intros (idx & -> & Hidx & Hlen)%sample_Return_drawn k b Hk.
  eapply drawn_from_all; [done | | done].
  unfold dict_values in Hlen. rewrite length_fmap in Hlen. lia.
Qed.

Lemma sample_of_the_whole_buffer_misses_nothing_witness :
  let s := server_with {[ 0%nat := {[ "a" := "x"; "b" := "y" ]} ]}%string in
  let o := sample demo_loads (demo_buffer 3 false) 2 2 s in
  returned o = Some ["x"; "y"]%string ∧
  ∀ k b, select 0 s !! k = Some b →
         ∃ t, demo_loads b = Some t ∧ t ∈ ["x"; "y"]%string.
Proof.
  intros s o. split; [reflexivity|].
  apply (sample_of_the_whole_buffer_misses_nothing
           demo_loads (demo_buffer 3 false) 2 s (final_state o)
           ["x"; "y"]%string).
  reflexivity.
Defined.

(** X14: [clean] followed by [store], for a capacity that is not
    negative: the call returns whatever the fuel, the buffer holds the new
    transition and nothing else, every other database is empty,
    [num_transitions] answers 1. *)
Theorem store_after_clean_holds_one_transition {Transition : Type}
    (dumps : Transition → string) (self : DistributedExperienceReplay)
    (fuel : nat) (cap : Z) (u : string) (t : Transition) (s : Redis) :
  max_size self = (Transitions, cap) → 0 ≤ cap →
  ∃ s', (clean ;;; store dumps self fuel u t) s = Return tt s' ∧
        select (db self) s' = {[ u := dumps t ]} ∧
        (∀ d', d' ≠ db self → select d' s' = ∅) ∧
        num_transitions self s' = Return 1 s'.
Proof.
  intros Hmax Hcap. unfold bind at 1. rewrite clean_outcome.
  set (s0 := {| dbs := ∅; entropy := entropy s; draws := draws s |}).
  assert (He : select (db self) s0 = ∅) by done.
  eexists. split.
  - apply (store_no_eviction dumps self fuel cap); [done|].
    rewrite He, insert_empty, map_size_singleton. lia.
  - rewrite select_update_db, He, insert_empty. split; [done|]. split.
    + intros d' Hd'. by rewrite select_update_db_ne.
    + rewrite num_transitions_nonempty;
        rewrite select_update_db, He, insert_empty.
      * by rewrite map_size_singleton.
      * apply map_non_empty_singleton.
Qed.

Lemma store_after_clean_holds_one_transition_witness :
  let s := server_with {[ 0%nat := {[ "a" := "x"; "b" := "y" ]};
                          1%nat := {[ "c" := "z" ]} ]}%string in
  ∃ s', (clean ;;; store demo_dumps (demo_buffer 3 true) 0 "u" "new") s
          = Return tt s' ∧
        num_transitions (demo_buffer 3 true) s' = Return 1 s'.
Proof.
  intros s.
  destruct (store_after_clean_holds_one_transition
              demo_dumps (demo_buffer 3 true) 0 3 "u" "new"%string s)
    as (s' & Hst & _ & _ & Hcount).
  - reflexivity.
  - lia.
  - exists s'. split; [exact Hst | exact Hcount].
Defined.

(** X15: any number of [store] calls in a row.  With a positive capacity,
    identifiers that are pairwise different and not yet in the buffer, and
    a buffer within its capacity, the calls all return (fuel 1 is enough
    for each), the count at the end is the smaller of the capacity and
    the old count plus the number of calls, and every entry at the end is
    an old entry or one of those stored, with its value. *)
Theorem stores_in_a_row_fill_up_to_capacity {Transition : Type}
    (dumps : Transition → string) (self : DistributedExperienceReplay)
    (fuel : nat) (cap : Z) (items : list (string * Transition)) (s : Redis) :
  max_size self = (Transitions, cap) → 0 < cap → (1 ≤ fuel)%nat →
  NoDup items.*1 →
  (∀ k, k ∈ items.*1 → select (db self) s !! k = None) →
  Z.of_nat (size (select (db self) s)) ≤ cap →
  ∃ s', store_all dumps self fuel items s = Return tt s' ∧
        size (select (db self) s') =
          ((size (select (db self) s) + List.length items)
             `min` Z.to_nat cap)%nat ∧
        (∀ k b, select (db self) s' !! k = Some b →
                select (db self) s !! k = Some b ∨
                ∃ t, (k, t) ∈ items ∧ b = dumps t).
Proof. apply store_all_spec. Qed.

Lemma stores_in_a_row_fill_up_to_capacity_witness :
  let s := server_with {[ 0%nat := {[ "a" := "x" ]} ]}%string in
  ∃ s', store_all demo_dumps (demo_buffer 2 true) 1
          [("u1", "p"); ("u2", "q"); ("u3", "r")]%string s = Return tt s' ∧
        size (select 0 s') = 2%nat.
Proof.
  intros s.
  destruct (stores_in_a_row_fill_up_to_capacity
              demo_dumps (demo_buffer 2 true) 1 2
              [("u1", "p"); ("u2", "q"); ("u3", "r")]%string s)
    as (s' & Hall & Hsize & _).
  - reflexivity.
  - lia.
  - lia.
  - compute_done.
  - intros k Hk. vm_compute in Hk.
    repeat (apply elem_of_cons in Hk as [->|Hk]; [reflexivity|]).
    by apply elem_of_nil in Hk.
  - vm_compute. discriminate.
  - exists s'. split; [exact Hall|]. etrans; [exact Hsize|]. reflexivity.
Defined.
